(** * DailyEnchant renderer: task filter/sort engine, data client and logger

    A shallow embedding of [src/frontend/js/renderer.js]:
    - [FrontendLogger.saveToLocalStorage] and [FrontendLogger.log],
    - [loadTasks] (the promise chain on [axios.get]),
    - [getFilteredAndSortedTasks].

    The script is dynamically typed and the task list comes straight from a
    JSON response, so tasks are JavaScript values and every property read or
    method call that the engine can reject is a computation in an error
    monad. Built-ins whose result depends on the engine or the locale
    ([Date], [toLowerCase], [trim], [toISOString], the storage quota) are
    fields of a [Host] record. *)

From Stdlib Require Import ZArith List String Ascii Bool Lia.
From Stdlib Require Import Permutation Sorted DecimalString.
Import ListNotations.

Open Scope string_scope.
Open Scope Z_scope.
Open Scope list_scope.

Set Warnings "-register-all".

(** ** JavaScript values *)

Module JS.

(** Values that [JSON.parse] produces, plus [undefined] (the result of
    reading a missing property). Object properties are kept in lookup
    order. *)
Inductive value : Type :=
| VUndefined
| VNull
| VBool (b : bool)
| VNum (n : Z)
| VStr (s : string)
| VArr (elems : list value)
| VObj (props : list (string * value)).

(** Results of arithmetic: a finite number (only integers arise here:
    table ranks and differences of time values) or NaN. *)
Inductive number : Type :=
| NaN
| Num (z : Z).

(** A computation either completes or throws a value. *)
Inductive result (A : Type) : Type :=
| Ok (a : A)
| Throw (e : value).

Arguments Ok {A} a.
Arguments Throw {A} e.

Definition bind {A B : Type} (m : result A) (k : A -> result B) : result B :=
  match m with
  | Ok a => k a
  | Throw e => Throw e
  end.

Definition is_ok {A : Type} (m : result A) : bool :=
  match m with
  | Ok _ => true
  | Throw _ => false
  end.

(** The error object the engine throws on a bad property read or call; the
    engine-specific message and stack are left out. *)
Definition TypeError : value := VObj [("name", VStr "TypeError")].

(** [new Error(message)], without the engine-specific stack. *)
Definition new_Error (message : string) : value :=
  VObj [("message", VStr message)].

(** ToBoolean. *)
Definition truthy (v : value) : bool :=
  match v with
  | VUndefined | VNull => false
  | VBool b => b
  | VNum n => negb (n =? 0)
  | VStr s => negb (s =? "")%string
  | VArr _ | VObj _ => true
  end.

Fixpoint lookup (p : string) (props : list (string * value)) : value :=
  match props with
  | [] => VUndefined
  | (k, v) :: rest => if (k =? p)%string then v else lookup p rest
  end.

(** [v.p] for the data property names the script reads. Reading from
    [undefined] or [null] throws; a missing property is [undefined]. *)
Definition get (v : value) (p : string) : result value :=
  match v with
  | VUndefined | VNull => Throw TypeError
  | VObj props => Ok (lookup p props)
  | VArr elems =>
      if (p =? "length")%string then Ok (VNum (Z.of_nat (List.length elems)))
      else Ok VUndefined
  | VStr s =>
      if (p =? "length")%string then Ok (VNum (Z.of_nat (String.length s)))
      else Ok VUndefined
  | VBool _ | VNum _ => Ok VUndefined
  end.

(** [Array.isArray]. *)
Definition isArray (v : value) : bool :=
  match v with
  | VArr _ => true
  | _ => false
  end.

(** [a === b]. Two arrays or objects are equal only when they are the same
    reference; the values compared here come from different places of the
    parsed responses, so they never are. *)
Definition strict_eq (a b : value) : bool :=
  match a, b with
  | VUndefined, VUndefined => true
  | VNull, VNull => true
  | VBool x, VBool y => Bool.eqb x y
  | VNum x, VNum y => x =? y
  | VStr x, VStr y => (x =? y)%string
  | _, _ => false
  end.

Definition Z_to_string (z : Z) : string :=
  NilEmpty.string_of_int (Z.to_int z).

(** ToString, as used to turn a value into a property key. (Numbers of
    twenty-two digits or more print in exponent form in the engine; no such
    key matters below.) *)
Fixpoint ToString (v : value) : string :=
  match v with
  | VUndefined => "undefined"
  | VNull => "null"
  | VBool true => "true"
  | VBool false => "false"
  | VNum n => Z_to_string n
  | VStr s => s
  | VArr elems =>
      (fix join (l : list value) : string :=
         match l with
         | [] => ""
         | x :: rest =>
             let sx := match x with
                       | VUndefined | VNull => ""
                       | _ => ToString x
                       end in
             match rest with
             | [] => sx
             | _ :: _ => (sx ++ "," ++ join rest)%string
             end
         end) elems
  | VObj _ => "[object Object]"
  end.

(** [a - b] on numbers. *)
Definition sub (a b : number) : number :=
  match a, b with
  | Num x, Num y => Num (x - y)
  | _, _ => NaN
  end.

(** [a < b] and [a >= b] on numbers: false as soon as one side is NaN. *)
Definition ltb (a b : number) : bool :=
  match a, b with
  | Num x, Num y => x <? y
  | _, _ => false
  end.

Definition geb (a b : number) : bool :=
  match a, b with
  | Num x, Num y => y <=? x
  | _, _ => false
  end.

(** [s.includes(t)]. *)
Fixpoint includes (s t : string) : bool :=
  if String.prefix t s then true
  else match s with
       | EmptyString => false
       | String _ s' => includes s' t
       end.

(** [a && b] and [a || b] where only the truth of the result is used. *)
Definition and_then (a b : result bool) : result bool :=
  bind a (fun x => if x then b else Ok false).

Definition or_else (a b : result bool) : result bool :=
  bind a (fun x => if x then Ok true else b).

(** [arr.filter(pred)]: the callback runs on every element in order. *)
Fixpoint Array_filter (pred : value -> result bool) (l : list value)
  : result (list value) :=
  match l with
  | [] => Ok []
  | x :: rest =>
      bind (pred x) (fun keep =>
      bind (Array_filter pred rest) (fun r =>
      Ok (if keep then x :: r else r)))
  end.

(** [arr.some(pred)]: stops at the first element the callback accepts. *)
Fixpoint Array_some (pred : value -> result bool) (l : list value)
  : result bool :=
  match l with
  | [] => Ok false
  | x :: rest => or_else (pred x) (Array_some pred rest)
  end.

(** [Array.prototype.sort(comparefn)]. The comparator's result is taken
    through ToNumber with NaN read as +0, so only a strictly positive
    result moves the first argument behind the second. *)
Definition positive (c : number) : bool :=
  match c with
  | Num z => 0 <? z
  | NaN => false
  end.

Fixpoint insert (cmp : value -> value -> result number) (x : value)
  (sorted : list value) : result (list value) :=
  match sorted with
  | [] => Ok [x]
  | y :: rest =>
      bind (cmp x y) (fun c =>
      if positive c
      then bind (insert cmp x rest) (fun r => Ok (y :: r))
      else Ok (x :: sorted))
  end.

Fixpoint sort_defined (cmp : value -> value -> result number)
  (l : list value) : result (list value) :=
  match l with
  | [] => Ok []
  | x :: rest => bind (sort_defined cmp rest) (insert cmp x)
  end.

Definition is_undefined (v : value) : bool :=
  match v with
  | VUndefined => true
  | _ => false
  end.

(** The sort is stable (ECMAScript 2019), which fixes its result for every
    consistent comparator; it is embedded as a stable insertion sort.
    [undefined] elements are moved to the end without being compared. For
    a comparator that is not consistent (one that yields NaN for some
    pairs only) the standard leaves the order to the engine, and this
    embedding need not give the engine's order there. *)
Definition Array_sort (cmp : value -> value -> result number)
  (l : list value) : result (list value) :=
  bind (sort_defined cmp (List.filter (fun v => negb (is_undefined v)) l))
       (fun s => Ok (s ++ List.filter is_undefined l)).

End JS.

Import JS.

Notation "x <- m ;; k" := (bind m (fun x => k))
  (at level 61, m at next level, right associativity).

(** ** Log entries, host built-ins and the session state *)

(** What [FrontendLogger.log] builds: [error] is [null] or the pair of the
    error argument's [message] and [stack]. *)
Record LogEntry : Type := mkLogEntry {
  timestamp : string;
  level : string;
  message : string;
  error : option (value * value)
}.

(** One call of a [console] method. *)
Record ConsoleLine : Type := mkConsoleLine {
  method : string;
  text : string;
  detail : value
}.

Record Host : Type := mkHost {
  (** [s.toLowerCase()] and [s.trim()] *)
  toLowerCase : string -> string;
  trim : string -> string;
  (** the time value of [new Date(v)], NaN for an invalid date *)
  Date_time : value -> number;
  (** the time value after [d.setHours(0, 0, 0, 0)] *)
  startOfDay : Z -> Z;
  (** the time value after [d.setDate(d.getDate() + 1)], a later instant *)
  nextDate : Z -> Z;
  nextDate_later : forall t, t < nextDate t;
  (** [d.toISOString()] *)
  toISOString : Z -> string;
  (** [localStorage.setItem('frontendLogs', JSON.stringify(logs))]: the
      store takes the buffer or throws (quota) *)
  setItem : list LogEntry -> result unit
}.

(** The script's globals, the two form controls the engine reads, the
    clock reading [new Date()] gives while an operation runs, and the
    observable outputs of the logger. [frontendLogs] is the array stored
    under the key ['frontendLogs'] (empty when the key is absent). *)
Record State : Type := mkState {
  currentFilter : string;
  currentCategory : value;
  tasks : list value;
  searchInput : string;
  sortSelect : string;
  now : Z;
  console : list ConsoleLine;
  frontendLogs : list LogEntry;
  posted : list LogEntry
}.

Definition set_tasks (l : list value) (st : State) : State :=
  mkState (currentFilter st) (currentCategory st) l (searchInput st)
          (sortSelect st) (now st) (console st) (frontendLogs st) (posted st).

Definition set_frontendLogs (logs : list LogEntry) (st : State) : State :=
  mkState (currentFilter st) (currentCategory st) (tasks st) (searchInput st)
          (sortSelect st) (now st) (console st) logs (posted st).

Definition console_write (m t : string) (d : value) (st : State) : State :=
  mkState (currentFilter st) (currentCategory st) (tasks st) (searchInput st)
          (sortSelect st) (now st) (console st ++ [mkConsoleLine m t d])
          (frontendLogs st) (posted st).

Definition post_log (e : LogEntry) (st : State) : State :=
  mkState (currentFilter st) (currentCategory st) (tasks st) (searchInput st)
          (sortSelect st) (now st) (console st) (frontendLogs st)
          (posted st ++ [e]).

(** How a promise settles. *)
Inductive settled : Type :=
| Fulfilled
| Rejected (reason : value).

(** [v.p] under a truthiness test on [v], where the read cannot throw. *)
Definition member (v : value) (p : string) : value :=
  match get v p with
  | Ok x => x
  | Throw _ => VUndefined
  end.

(** [logs.slice(-n)] *)
Definition slice_last {A : Type} (n : nat) (logs : list A) : list A :=
  skipn (List.length logs - n) logs.

Section Renderer.

Variable h : Host.

(** ** FrontendLogger *)

(** The key ['frontendLogs'] is written by this function only, so what
    [JSON.parse] reads back is the array stored last; the one step that can
    throw inside the [try] is [setItem]. *)
Definition saveToLocalStorage (logEntry : LogEntry) (st : State) : State :=
  let logs := frontendLogs st ++ [logEntry] in
  let logs :=
    if (1000 <? List.length logs)%nat then slice_last 1000 logs else logs in
  match setItem h logs with
  | Ok _ => set_frontendLogs logs st
  | Throw e => console_write "error" "保存日志到本地存储失败:" e st
  end.

(** [axios.post] is not awaited: the entry is handed to the transport and
    the outcome never reaches the caller. *)
Definition sendToServer (logEntry : LogEntry) (st : State) : State :=
  post_log logEntry st.

Definition FrontendLogger_log (level message : string) (error : value)
  (st : State) : State :=
  let timestamp := toISOString h (now st) in
  let logEntry :=
    mkLogEntry timestamp level message
      (if truthy error
       then Some (member error "message", member error "stack")
       else None) in
  let consoleMethod :=
    if (level =? "error")%string then "error"
    else if (level =? "warn")%string then "warn" else "log" in
  let st :=
    console_write consoleMethod
      ("[" ++ timestamp ++ "] [" ++ level ++ "] " ++ message)%string
      (if truthy error then error else VStr "") st in
  let st := saveToLocalStorage logEntry st in
  if (level =? "error")%string then sendToServer logEntry st else st.

Definition getLogs (st : State) : list LogEntry := frontendLogs st.

Definition clearLogs (st : State) : State := set_frontendLogs [] st.

(** ** loadTasks *)

(** The test [response && response.data &&
    Array.isArray(response.data.tasks)], returning the array it found. *)
Definition as_array (v : value) : option (list value) :=
  match v with
  | VArr elems => Some elems
  | _ => None
  end.

Definition tasks_array (response : value) : result (option (list value)) :=
  if truthy response then
    data <- get response "data";;
    if truthy data then
      t <- get data "tasks";;
      Ok (as_array t)
    else Ok None
  else Ok None.

(** The [.then] callback. *)
Definition loadTasks_then (response : value) (st : State)
  : State * result unit :=
  match get response "data" with
  | Throw e => (st, Throw e)
  | Ok data =>
      let st :=
        FrontendLogger_log "info" "任务数据加载响应"
          (VObj [("response", data)]) st in
      match tasks_array response with
      | Throw e => (st, Throw e)
      | Ok (Some elems) =>
          let st :=
            FrontendLogger_log "info"
              ("成功加载 " ++ Z_to_string (Z.of_nat (List.length elems))
               ++ " 个任务")%string VNull st in
          (set_tasks elems st, Ok tt)
      | Ok None =>
          let st :=
            FrontendLogger_log "warn" "API返回的任务数据格式不符合预期"
              (new_Error "tasks数据不是数组") st in
          (set_tasks [] st, Ok tt)
      end
  end.

(** The [.catch] callback: log, reset, rethrow. *)
Definition loadTasks_catch (e : value) (st : State) : State * settled :=
  let st := FrontendLogger_log "error" "加载任务失败" e st in
  (set_tasks [] st, Rejected e).

(** [loadTasks()], given how the [axios.get] promise settles. *)
Definition loadTasks (outcome : result value) (st : State)
  : State * settled :=
  let st := FrontendLogger_log "info" "开始加载任务数据" VNull st in
  match outcome with
  | Throw e => loadTasks_catch e st
  | Ok response =>
      match loadTasks_then response st with
      | (st', Ok _) => (st', Fulfilled)
      | (st', Throw e) => loadTasks_catch e st'
      end
  end.

(** ** getFilteredAndSortedTasks *)

(** [v.toLowerCase()]: only strings have the method. *)
Definition call_toLowerCase (v : value) : result string :=
  match v with
  | VStr s => Ok (toLowerCase h s)
  | _ => Throw TypeError
  end.

(** [v.some(pred)]: only arrays have the method. *)
Definition call_some (pred : value -> result bool) (v : value)
  : result bool :=
  match v with
  | VArr elems => Array_some pred elems
  | _ => Throw TypeError
  end.

Definition has (task : value) (p : string) : result bool :=
  v <- get task p;; Ok (truthy v).

Definition lacks (task : value) (p : string) : result bool :=
  v <- get task p;; Ok (negb (truthy v)).

Definition status_is (s : string) (task : value) : result bool :=
  v <- get task "status";; Ok (strict_eq v (VStr s)).

Definition status_is_not (s : string) (task : value) : result bool :=
  v <- get task "status";; Ok (negb (strict_eq v (VStr s))).

Definition due_before (bound : Z) (task : value) : result bool :=
  d <- get task "due_date";; Ok (ltb (Date_time h d) (Num bound)).

Definition due_from (bound : Z) (task : value) : result bool :=
  d <- get task "due_date";; Ok (geb (Date_time h d) (Num bound)).

Definition is_overdue (today : Z) (task : value) : result bool :=
  and_then (has task "due_date")
    (and_then (due_before today task) (status_is_not "completed" task)).

Definition is_due_soon (today tomorrow : Z) (task : value) : result bool :=
  and_then (has task "due_date")
    (and_then (due_from today task)
       (and_then (due_before tomorrow task)
          (status_is_not "completed" task))).

Definition statusFilter (st : State) (filtered : list value)
  : result (list value) :=
  let f := currentFilter st in
  if (f =? "all")%string then Ok filtered
  else if (f =? "todo")%string then
    Array_filter (status_is "todo") filtered
  else if (f =? "in_progress")%string then
    Array_filter (status_is "in_progress") filtered
  else if (f =? "completed")%string then
    Array_filter (status_is "completed") filtered
  else if (f =? "overdue")%string then
    let today := startOfDay h (now st) in
    Array_filter (is_overdue today) filtered
  else if (f =? "due_soon")%string then
    let today := startOfDay h (now st) in
    let tomorrow := nextDate h today in
    Array_filter (is_due_soon today tomorrow) filtered
  else Ok filtered.

Definition in_category (c : value) (task : value) : result bool :=
  v <- get task "category_id";; Ok (strict_eq v c).

Definition categoryFilter (st : State) (filtered : list value)
  : result (list value) :=
  if negb (strict_eq (currentCategory st) (VStr "all"))
  then Array_filter (in_category (currentCategory st)) filtered
  else Ok filtered.

Definition text_includes (searchTerm : string) (v : value) : result bool :=
  s <- call_toLowerCase v;; Ok (includes s searchTerm).

Definition matchesSearch (searchTerm : string) (task : value)
  : result bool :=
  or_else (t <- get task "title";; text_includes searchTerm t)
    (or_else
       (and_then (has task "description")
          (d <- get task "description";; text_includes searchTerm d))
       (and_then (has task "tags")
          (g <- get task "tags";;
           call_some (text_includes searchTerm) g))).

Definition searchTermOf (st : State) : string :=
  trim h (toLowerCase h (searchInput st)).

Definition searchFilter (st : State) (filtered : list value)
  : result (list value) :=
  let searchTerm := searchTermOf st in
  if truthy (VStr searchTerm)
  then Array_filter (matchesSearch searchTerm) filtered
  else Ok filtered.

Definition by_updated_at_desc (a b : value) : result number :=
  ub <- get b "updated_at";;
  ua <- get a "updated_at";;
  Ok (sub (Date_time h ub) (Date_time h ua)).

Definition by_updated_at_asc (a b : value) : result number :=
  ua <- get a "updated_at";;
  ub <- get b "updated_at";;
  Ok (sub (Date_time h ua) (Date_time h ub)).

Definition by_due_date_asc (a b : value) : result number :=
  neither <- and_then (lacks a "due_date") (lacks b "due_date");;
  if neither then Ok (Num 0) else
  no_a <- lacks a "due_date";;
  if no_a then Ok (Num 1) else
  no_b <- lacks b "due_date";;
  if no_b then Ok (Num (-1)) else
  da <- get a "due_date";;
  db <- get b "due_date";;
  Ok (sub (Date_time h da) (Date_time h db)).

Definition by_due_date_desc (a b : value) : result number :=
  neither <- and_then (lacks a "due_date") (lacks b "due_date");;
  if neither then Ok (Num 0) else
  no_a <- lacks a "due_date";;
  if no_a then Ok (Num (-1)) else
  no_b <- lacks b "due_date";;
  if no_b then Ok (Num 1) else
  db <- get b "due_date";;
  da <- get a "due_date";;
  Ok (sub (Date_time h db) (Date_time h da)).

(** [priorityOrder[key]] as a number: the table
    [{ 'high': 0, 'medium': 1, 'low': 2 }] read at ToString of the key. Any
    other key reads [undefined] or a member inherited from
    [Object.prototype], and both are NaN once subtracted. *)
Definition priorityOrder (key : value) : number :=
  let k := ToString key in
  if (k =? "high")%string then Num 0
  else if (k =? "medium")%string then Num 1
  else if (k =? "low")%string then Num 2
  else NaN.

Definition by_priority (a b : value) : result number :=
  pa <- get a "priority";;
  pb <- get b "priority";;
  Ok (sub (priorityOrder pa) (priorityOrder pb)).

(** The [switch (sortBy)]: five cases and no default. *)
Definition sortStep (sortBy : string) (filtered : list value)
  : result (list value) :=
  if (sortBy =? "updated_at_desc")%string then
    Array_sort by_updated_at_desc filtered
  else if (sortBy =? "updated_at_asc")%string then
    Array_sort by_updated_at_asc filtered
  else if (sortBy =? "due_date_asc")%string then
    Array_sort by_due_date_asc filtered
  else if (sortBy =? "due_date_desc")%string then
    Array_sort by_due_date_desc filtered
  else if (sortBy =? "priority")%string then
    Array_sort by_priority filtered
  else Ok filtered.

Definition getFilteredAndSortedTasks (st : State) : result (list value) :=
  filtered <- statusFilter st (tasks st);;
  filtered <- categoryFilter st filtered;;
  filtered <- searchFilter st filtered;;
  sortStep (sortSelect st) filtered.

End Renderer.

(** ** A concrete host: ASCII text, the UTC time zone, unbounded storage

    Used to run the embedding on concrete inputs. Its [Date] reads numbers
    (a time value), [null] (the epoch) and date-only strings [YYYY-MM-DD]
    (midnight UTC); other date-time forms are not recognised by it. *)

Module UTCHost.

Definition lower_char (c : ascii) : ascii :=
  let n := nat_of_ascii c in
  if ((65 <=? n) && (n <=? 90))%nat then ascii_of_nat (n + 32) else c.

Fixpoint lower (s : string) : string :=
  match s with
  | EmptyString => EmptyString
  | String c s' => String (lower_char c) (lower s')
  end.

Definition is_space (c : ascii) : bool :=
  let n := nat_of_ascii c in
  ((n =? 32) || ((9 <=? n) && (n <=? 13)))%nat.

Fixpoint trim_start (s : string) : string :=
  match s with
  | EmptyString => EmptyString
  | String c s' => if is_space c then trim_start s' else s
  end.

Fixpoint trim_end (s : string) : string :=
  match s with
  | EmptyString => EmptyString
  | String c s' =>
      let r := trim_end s' in
      if is_space c && (r =? "")%string then EmptyString else String c r
  end.

Definition trim_ascii (s : string) : string := trim_end (trim_start s).

Definition msPerDay : Z := 86400000.

(** Days since 1970-01-01 of a date in the proleptic Gregorian calendar. *)
Definition days_from_civil (y m d : Z) : Z :=
  let y' := if m <=? 2 then y - 1 else y in
  let era := y' / 400 in
  let yoe := y' - era * 400 in
  let mp := if 2 <? m then m - 3 else m + 9 in
  let doy := (153 * mp + 2) / 5 + d - 1 in
  let doe := yoe * 365 + yoe / 4 - yoe / 100 + doy in
  era * 146097 + doe - 719468.

(** The inverse: year, month and day of a day number. *)
Definition civil_from_days (z : Z) : Z * Z * Z :=
  let z := z + 719468 in
  let era := z / 146097 in
  let doe := z - era * 146097 in
  let yoe := (doe - doe / 1460 + doe / 36524 - doe / 146096) / 365 in
  let doy := doe - (365 * yoe + yoe / 4 - yoe / 100) in
  let mp := (5 * doy + 2) / 153 in
  let d := doy - (153 * mp + 2) / 5 + 1 in
  let m := if mp <? 10 then mp + 3 else mp - 9 in
  let y := yoe + era * 400 in
  (if m <=? 2 then y + 1 else y, m, d).

Definition digit (c : ascii) : option Z :=
  let n := Z.of_nat (nat_of_ascii c) in
  if (48 <=? n) && (n <=? 57) then Some (n - 48) else None.

Fixpoint digits (s : string) (acc : Z) : option Z :=
  match s with
  | EmptyString => Some acc
  | String c s' =>
      match digit c with
      | Some d => digits s' (10 * acc + d)
      | None => None
      end
  end.

Definition parse_date (s : string) : number :=
  if negb (String.length s =? 10)%nat then NaN
  else if negb ((substring 4 1 s =? "-") && (substring 7 1 s =? "-"))%string
  then NaN
  else
    match digits (substring 0 4 s) 0, digits (substring 5 2 s) 0,
          digits (substring 8 2 s) 0 with
    | Some y, Some m, Some d =>
        let days := days_from_civil y m d in
        if (1 <=? m) && (m <=? 12) && (1 <=? d)
           && (days_from_civil y m d <? days_from_civil y (m + 1) 1)
        then Num (days * msPerDay) else NaN
    | _, _, _ => NaN
    end.

Definition date_time (v : value) : number :=
  match v with
  | VNum n => Num n
  | VNull => Num 0
  | VStr s => parse_date s
  | _ => NaN
  end.

Definition start_of_day (t : Z) : Z := t / msPerDay * msPerDay.

Definition next_date (t : Z) : Z := t + msPerDay.

Definition pad (width : nat) (n : Z) : string :=
  let s := Z_to_string n in
  (string_of_list_ascii (repeat "0"%char (width - String.length s)) ++ s)%string.

Definition to_iso_string (t : Z) : string :=
  let '(y, m, d) := civil_from_days (t / msPerDay) in
  let r := t mod msPerDay in
  (pad 4 y ++ "-" ++ pad 2 m ++ "-" ++ pad 2 d ++ "T"
   ++ pad 2 (r / 3600000) ++ ":" ++ pad 2 (r / 60000 mod 60) ++ ":"
   ++ pad 2 (r / 1000 mod 60) ++ "." ++ pad 3 (r mod 1000) ++ "Z")%string.

Definition host : Host :=
  mkHost lower trim_ascii date_time start_of_day next_date
         ltac:(intro t; unfold next_date, msPerDay; lia)
         to_iso_string (fun _ => Ok tt).

End UTCHost.

Definition emptyLog : list LogEntry := [].

(** The state the script starts in, with the sort control on [sortBy]. *)
Definition initialState (sortBy : string) (clock : Z) : State :=
  mkState "all" (VStr "all") [] "" sortBy clock [] emptyLog [].

(** The assignments [setFilter] and [setCategoryFilter] make to the
    globals, and the text typed in the search box (the updates of the page
    and the re-rendering that follow are not part of the state). *)
Definition setFilter (filter : string) (st : State) : State :=
  mkState filter (currentCategory st) (tasks st) (searchInput st)
          (sortSelect st) (now st) (console st) (frontendLogs st) (posted st).

Definition setCategoryFilter (categoryId : value) (st : State) : State :=
  mkState (currentFilter st) categoryId (tasks st) (searchInput st)
          (sortSelect st) (now st) (console st) (frontendLogs st) (posted st).

Definition type_search (s : string) (st : State) : State :=
  mkState (currentFilter st) (currentCategory st) (tasks st) s
          (sortSelect st) (now st) (console st) (frontendLogs st) (posted st).

(** ** Vocabulary of the statements *)

(** [undefined] and [null], the two values no property can be read from. *)
Definition nullish (v : value) : bool :=
  match v with
  | VUndefined | VNull => true
  | _ => false
  end.

(** A value properties can be read from. *)
Definition defined (v : value) : Prop := nullish v = false.

(** The callback's verdict, reading a throw as a rejection. *)
Definition accepts (pred : value -> result bool) (x : value) : bool :=
  match pred x with
  | Ok true => true
  | _ => false
  end.

Section Vocabulary.

Variable h : Host.

(** A run of appends to the stored buffer. *)
Definition appends (es : list LogEntry) (st : State) : State :=
  fold_left (fun s e => saveToLocalStorage h e s) es st.

(** The response carries the array [elems] under [data.tasks]. *)
Definition carries_tasks (response : value) (elems : list value) : Prop :=
  truthy response = true
  /\ truthy (member response "data") = true
  /\ member (member response "data") "tasks" = VArr elems.

(** A console line written at warning level. *)
Definition warned (st st' : State) : Prop :=
  exists pre line post,
    console st' = console st ++ pre ++ line :: post
    /\ method line = "warn".

(** The task has a due date. *)
Definition has_due_date (task : value) : Prop :=
  truthy (member task "due_date") = true.

(** The instant of the task's due date, when it has one and it is a valid
    date. *)
Definition due_time (task : value) : option Z :=
  let d := member task "due_date" in
  if truthy d then
    match Date_time h d with
    | Num t => Some t
    | NaN => None
    end
  else None.

Definition not_completed (task : value) : Prop :=
  member task "status" <> VStr "completed".

(** The start of the current calendar day and of the next one. *)
Definition today (st : State) : Z := startOfDay h (now st).

Definition tomorrow (st : State) : Z := nextDate h (today st).

(** The status filter [filter], applied to the task list, keeps [task]. *)
Definition kept_by (filter : string) (st : State) (task : value) : Prop :=
  exists out,
    statusFilter h (setFilter filter st) (tasks st) = Ok out /\ In task out.

(** The status filter [filter] returns a list without [task]. *)
Definition dropped_by (filter : string) (st : State) (task : value) : Prop :=
  exists out,
    statusFilter h (setFilter filter st) (tasks st) = Ok out
    /\ ~ In task out.

(** Due within today: from the start of today, before the start of the
    next day, and not completed. *)
Definition DueSoon (st : State) (task : value) : Prop :=
  exists t,
    due_time task = Some t
    /\ today st <= t < tomorrow st
    /\ not_completed task.

(** [term] occurs in [s], case folded. *)
Definition ci_substring (term s : string) : Prop :=
  exists pre post, toLowerCase h s = (pre ++ term ++ post)%string.

(** The search text occurs in the title, in the description when there is
    one, or in a tag. *)
Definition Matches (term : string) (task : value) : Prop :=
  (exists s, member task "title" = VStr s /\ ci_substring term s)
  \/ (exists s, member task "description" = VStr s /\ s <> ""
                /\ ci_substring term s)
  \/ (exists elems tag, member task "tags" = VArr elems
                        /\ In (VStr tag) elems /\ ci_substring term tag).

Definition is_text (v : value) : Prop := exists s, v = VStr s.

(** A well-formed task: an object with a text title, whose description and
    tags are absent, [null], or a text and an array of texts. *)
Definition well_formed (task : value) : Prop :=
  nullish task = false
  /\ is_text (member task "title")
  /\ (truthy (member task "description") = true ->
      is_text (member task "description"))
  /\ (truthy (member task "tags") = true ->
      exists elems, member task "tags" = VArr elems /\ Forall is_text elems).

(** Every due date that is set is a valid date. *)
Definition valid_due_date (task : value) : Prop :=
  nullish task = false
  /\ (has_due_date task -> exists t, Date_time h (member task "due_date") = Num t).

(** Order of due dates, tasks without one last. *)
Definition due_le (a b : value) : Prop :=
  match due_time a, due_time b with
  | Some x, Some y => x <= y
  | _, None => True
  | None, Some _ => False
  end.

(** The priority is one of the three the table knows. *)
Definition recognized (task : value) : Prop :=
  nullish task = false
  /\ priorityOrder (member task "priority") <> NaN.

Definition rank_le (a b : value) : Prop :=
  match priorityOrder (member a "priority"),
        priorityOrder (member b "priority") with
  | Num x, Num y => x <= y
  | _, _ => False
  end.

(** [x] has the rank of [a]. *)
Definition same_rank (a x : value) : bool :=
  match priorityOrder (member a "priority"),
        priorityOrder (member x "priority") with
  | Num p, Num q => p =? q
  | _, _ => false
  end.

End Vocabulary.

(** Tasks and entries used in the examples. *)
Definition task_with (priority : string) : value :=
  VObj [("title", VStr "Write report"); ("priority", VStr priority);
        ("status", VStr "todo"); ("due_date", VNull)].

Definition task_due (title : string) (due_date : value) : value :=
  VObj [("title", VStr title); ("priority", VStr "medium");
        ("status", VStr "todo"); ("due_date", due_date)].

Definition numbered_entry (n : nat) : LogEntry :=
  mkLogEntry (Z_to_string (Z.of_nat n)) "info" "entry" None.

(** 2024-01-15T10:00:00.123Z, a clock reading during 15 January 2024. *)
Definition clock_example : Z := 1705312800123.

Definition st_example (filter sortBy search : string) (l : list value)
  : State :=
  type_search search
    (setFilter filter (set_tasks l (initialState sortBy clock_example))).

Definition due_examples : list value :=
  [task_due "undated" VNull;
   task_due "later" (VStr "2024-02-01");
   task_due "no date field" VUndefined;
   task_due "sooner" (VStr "2024-01-10")].

Definition task_fields (title : string) (description tags due_date : value)
  (status : string) : value :=
  VObj [("title", VStr title); ("description", description); ("tags", tags);
        ("due_date", due_date); ("status", VStr status);
        ("priority", VStr "medium")].

Definition board : list value :=
  [task_fields "Buy milk" VNull (VArr [VStr "Report-Q3"; VStr "home"])
     (VStr "2024-01-14") "todo";
   task_fields "Write REPORT" (VStr "quarterly numbers") VUndefined
     (VStr "2024-01-15") "in_progress";
   task_fields "Call Ana" VUndefined VNull VNull "completed"].

(** ** The rest of the page: categories, the edit form, notifications *)

(** One call of [showNotification]: the text, the type added to the class
    list and the icon class chosen for it. *)
Record Notification : Type := mkNotification {
  note_message : string;
  note_type : string;
  note_icon : string
}.

(** One request handed to [axios]. *)
Record Request : Type := mkRequest {
  req_method : string;
  req_url : string;
  req_body : value
}.

(** The values of the edit form's controls and the progress records the
    page shows (text and [data-created-at]). *)
Record Form : Type := mkForm {
  taskTitle : string;
  taskCategory : string;
  taskPriority : string;
  taskDueDate : string;
  taskStatus : string;
  taskDescription : string;
  taskTags : string;
  progressRecords : list (string * value)
}.

(** The session state together with the globals and page outputs the
    engine does not read. *)
Record Page : Type := mkPage {
  session : State;
  categories : list value;
  currentTaskId : value;
  loading : bool;
  notifications : list Notification;
  requests : list Request
}.

Definition with_session (st : State) (pg : Page) : Page :=
  mkPage st (categories pg) (currentTaskId pg) (loading pg)
         (notifications pg) (requests pg).

Definition set_categories (l : list value) (pg : Page) : Page :=
  mkPage (session pg) l (currentTaskId pg) (loading pg)
         (notifications pg) (requests pg).

Definition set_loading (b : bool) (pg : Page) : Page :=
  mkPage (session pg) (categories pg) (currentTaskId pg) b
         (notifications pg) (requests pg).

Definition showLoading (pg : Page) : Page := set_loading true pg.

Definition hideLoading (pg : Page) : Page := set_loading false pg.

Definition showNotification (message type : string) (pg : Page) : Page :=
  let icon :=
    if (type =? "success")%string then "fa-check-circle"
    else if (type =? "error")%string then "fa-exclamation-circle"
    else if (type =? "warning")%string then "fa-exclamation-triangle"
    else "fa-info-circle" in
  mkPage (session pg) (categories pg) (currentTaskId pg) (loading pg)
         (notifications pg ++ [mkNotification message type icon])
         (requests pg).

Definition send (r : Request) (pg : Page) : Page :=
  mkPage (session pg) (categories pg) (currentTaskId pg) (loading pg)
         (notifications pg) (requests pg ++ [r]).

Definition API_BASE_URL : string := "http://localhost:5000/api".

(** [a === b] on numbers: NaN equals nothing. *)
Definition num_eqb (a b : number) : bool :=
  match a, b with
  | Num x, Num y => x =? y
  | _, _ => false
  end.

(** [v?.p] *)
Definition opt_member (v : value) (p : string) : value :=
  match v with
  | VUndefined | VNull => VUndefined
  | _ => member v p
  end.

(** [s || null] for a string [s]. *)
Definition text_or_null (s : string) : value :=
  if (s =? "")%string then VNull else VStr s.

(** [arr.find(pred)] *)
Fixpoint Array_find (pred : value -> result bool) (l : list value)
  : result value :=
  match l with
  | [] => Ok VUndefined
  | x :: rest =>
      found <- pred x;;
      if found then Ok x else Array_find pred rest
  end.

(** [arr.join(sep)]: [undefined] and [null] elements print as nothing. *)
Fixpoint Array_join (sep : string) (l : list value) : string :=
  match l with
  | [] => ""
  | x :: rest =>
      let sx := match x with
                | VUndefined | VNull => ""
                | _ => ToString x
                end in
      match rest with
      | [] => sx
      | _ :: _ => (sx ++ sep ++ Array_join sep rest)%string
      end
  end.

(** [s.split(sep)] for a one-character separator. *)
Fixpoint split (sep : ascii) (s : string) : list string :=
  match s with
  | EmptyString => [""]
  | String c s' =>
      if Ascii.eqb c sep then "" :: split sep s'
      else match split sep s' with
           | piece :: rest => String c piece :: rest
           | [] => [String c ""]
           end
  end.

(** The four counters of the statistics view. *)
Record Stats : Type := mkStats {
  totalTasks : Z;
  todoTasks : Z;
  inProgressTasks : Z;
  completedTasks : Z
}.

(** [getPriorityIcon], [getPriorityText], [getStatusIcon] and
    [getStatusText]: a [switch] on strict equality with a default. *)
Definition getPriorityIcon (priority : value) : string :=
  if strict_eq priority (VStr "high") then "fa-flag text-danger"
  else if strict_eq priority (VStr "medium") then "fa-flag text-warning"
  else if strict_eq priority (VStr "low") then "fa-flag text-secondary"
  else "fa-flag text-secondary".

Definition getPriorityText (priority : value) : string :=
  if strict_eq priority (VStr "high") then "高"
  else if strict_eq priority (VStr "medium") then "中"
  else if strict_eq priority (VStr "low") then "低"
  else "中".

Definition getStatusIcon (status : value) : string :=
  if strict_eq status (VStr "todo") then "fa-circle"
  else if strict_eq status (VStr "in_progress") then "fa-spinner fa-spin"
  else if strict_eq status (VStr "completed") then "fa-check-circle"
  else "fa-circle".

Definition getStatusText (status : value) : string :=
  if strict_eq status (VStr "todo") then "待办"
  else if strict_eq status (VStr "in_progress") then "进行中"
  else if strict_eq status (VStr "completed") then "已完成"
  else "待办".

Section Page.

Variable h : Host.

Definition page_log (level message : string) (error : value) (pg : Page)
  : Page :=
  with_session (FrontendLogger_log h level message error (session pg)) pg.

(** *** loadCategories *)

Definition categories_array (response : value)
  : result (option (list value)) :=
  if truthy response then
    data <- get response "data";;
    if truthy data then
      c <- get data "categories";;
      Ok (as_array c)
    else Ok None
  else Ok None.

Definition loadCategories_then (response : value) (pg : Page)
  : Page * result unit :=
  match get response "data" with
  | Throw e => (pg, Throw e)
  | Ok data =>
      let pg :=
        page_log "info" "加载分类数据响应" (VObj [("responseData", data)]) pg in
      match categories_array response with
      | Throw e => (pg, Throw e)
      | Ok (Some elems) =>
          let pg := set_categories elems pg in
          let pg :=
            page_log "info"
              ("成功加载 " ++ Z_to_string (Z.of_nat (List.length elems))
               ++ " 个分类")%string VNull pg in
          let pg :=
            with_session
              (console_write "log" "当前可用分类:" (VArr elems) (session pg))
              pg in
          (pg, Ok tt)
      | Ok None =>
          let pg :=
            page_log "warn" "API返回的分类数据格式不符合预期"
              (new_Error "categories数据不是数组") pg in
          (set_categories [] pg, Ok tt)
      end
  end.

Definition loadCategories_catch (e : value) (pg : Page) : Page * settled :=
  let pg := page_log "error" "加载分类失败" e pg in
  (set_categories [] pg, Rejected e).

Definition loadCategories (outcome : result value) (pg : Page)
  : Page * settled :=
  match outcome with
  | Throw e => loadCategories_catch e pg
  | Ok response =>
      match loadCategories_then response pg with
      | (pg', Ok _) => (pg', Fulfilled)
      | (pg', Throw e) => loadCategories_catch e pg'
      end
  end.

(** *** The card's due-date class in renderTasks *)

Definition dueDateClass (st : State) (task : value) : result string :=
  due <- get task "due_date";;
  if truthy due then
    due <- get task "due_date";;
    let dueDate := Date_time h due in
    let today := startOfDay h (now st) in
    late <- and_then (Ok (ltb dueDate (Num today)))
              (status_is_not "completed" task);;
    if late then Ok "overdue"
    else
      soon <- and_then (Ok (num_eqb dueDate (Num today)))
                (status_is_not "completed" task);;
      if soon then Ok "due-soon" else Ok ""
  else Ok "".

(** *** updateStats *)

Definition count_status (s : string) (l : list value) : result Z :=
  kept <- Array_filter (status_is s) l;;
  Ok (Z.of_nat (List.length kept)).

(** The counters are written once all four are computed. *)
Definition updateStats (st : State) : result Stats :=
  let total := Z.of_nat (List.length (tasks st)) in
  todo <- count_status "todo" (tasks st);;
  inProgress <- count_status "in_progress" (tasks st);;
  completed <- count_status "completed" (tasks st);;
  Ok (mkStats total todo inProgress completed).

(** *** saveTask *)

(** The [tags] field built from the tags box. *)
Definition parseTags (text : string) : list string :=
  if truthy (VStr (trim h text))
  then List.filter (fun tag => truthy (VStr tag))
         (List.map (trim h) (split ","%char text))
  else [].

Definition progress_record (r : string * value) : value :=
  VObj [("text", VStr (fst r)); ("created_at", snd r)].

Definition taskData (f : Form) : value :=
  VObj [("title", VStr (trim h (taskTitle f)));
        ("category_id", text_or_null (taskCategory f));
        ("category", text_or_null (taskCategory f));
        ("priority", VStr (taskPriority f));
        ("due_date", text_or_null (taskDueDate f));
        ("status", VStr (taskStatus f));
        ("description", text_or_null (trim h (taskDescription f)));
        ("tags", VArr (List.map VStr (parseTags (taskTags f))));
        ("progress_records",
         VArr (List.map progress_record (progressRecords f)))].

Definition has_id (id : value) (c : value) : result bool :=
  v <- get c "id";; Ok (strict_eq v id).

(** [saveTask] up to the point where the request is handed to [axios]. *)
Definition saveTask (f : Form) (pg : Page) : result Page :=
  if negb (truthy (VStr (trim h (taskTitle f)))) then
    Ok (showNotification "请输入任务标题" "warning" pg)
  else
    let selectedCategoryId := text_or_null (taskCategory f) in
    selectedCategory <-
      (if truthy selectedCategoryId
       then Array_find (has_id selectedCategoryId) (categories pg)
       else Ok VNull);;
    categoryName <-
      (if truthy selectedCategory then get selectedCategory "name"
       else Ok (VStr "无分类"));;
    let pg :=
      page_log "info" "保存任务，选择的分类"
        (VObj [("categoryId", selectedCategoryId);
               ("categoryName", categoryName)]) pg in
    let data := taskData f in
    let pg := showLoading pg in
    let pg :=
      page_log "info" "开始保存任务"
        (VObj [("taskId", currentTaskId pg);
               ("taskTitle", VStr (trim h (taskTitle f)))]) pg in
    Ok (if truthy (currentTaskId pg)
        then send (mkRequest "PUT"
                     (API_BASE_URL ++ "/tasks/" ++ ToString (currentTaskId pg))
                     data) pg
        else send (mkRequest "POST" (API_BASE_URL ++ "/tasks")%string data) pg).

(** *** The [.catch] of saveTask and createCategory *)

Definition errorMessage (what : string) (error : value) : result string :=
  response <- get error "response";;
  if strict_eq (opt_member response "status") (VNum 409) then
    Ok "分类已存在，请选择其他分类名称"
  else
    response <- get error "response";;
    if truthy (opt_member (opt_member response "data") "message") then
      response <- get error "response";;
      data <- get response "data";;
      m <- get data "message";;
      Ok (what ++ ": " ++ ToString m)%string
    else
      m <- get error "message";;
      Ok (what ++ ": " ++ ToString m)%string.

(** [what] is ['保存任务失败'] in saveTask and ['创建分类失败'] in
    createCategory. The entry is logged (and so forwarded to the server)
    and the loading indicator turned off before the message is built, so
    both survive a throw while building it. *)
Definition request_failed (what : string) (error : value) (pg : Page)
  : Page * result unit :=
  let pg := page_log "error" what error pg in
  let pg := hideLoading pg in
  match errorMessage what error with
  | Throw e => (pg, Throw e)
  | Ok text => (showNotification text "error" pg, Ok tt)
  end.

End Page.

(** A run of [FrontendLogger.log] calls, each given as level, message and
    error argument. *)
Definition log_call (h : Host) (st : State) (c : string * string * value)
  : State :=
  let '(lv, m, e) := c in FrontendLogger_log h lv m e st.

Definition log_calls (h : Host) (calls : list (string * string * value))
  (st : State) : State :=
  fold_left (log_call h) calls st.

(** The entry a call builds at clock reading [clock]. *)
Definition entry_of (h : Host) (clock : Z) (c : string * string * value)
  : LogEntry :=
  let '(lv, m, e) := c in
  mkLogEntry (toISOString h clock) lv m
    (if truthy e then Some (member e "message", member e "stack") else None).

Definition is_error_call (c : string * string * value) : bool :=
  let '(lv, _, _) := c in (lv =? "error")%string.

(** ** Vocabulary for the rest of the page *)

(** Why [loadTasks] or [loadCategories] fails for an outcome of the
    request: the request was rejected, or the callback cannot read the
    response. *)
Definition failure_reason (outcome : result value) : option value :=
  match outcome with
  | Throw e => Some e
  | Ok response => if nullish response then Some TypeError else None
  end.

(** The UTC host with a full store: every write throws. *)
Definition quota_host : Host :=
  mkHost UTCHost.lower UTCHost.trim_ascii UTCHost.date_time
         UTCHost.start_of_day UTCHost.next_date
         ltac:(intro t; unfold UTCHost.next_date, UTCHost.msPerDay; lia)
         UTCHost.to_iso_string
         (fun _ => Throw (new_Error "QuotaExceededError")).

Definition status_matches (s : string) (task : value) : bool :=
  strict_eq (member task "status") (VStr s).

Definition category_matches (c : value) (task : value) : bool :=
  strict_eq (member task "category_id") c.

Section Vocabulary2.

Variable h : Host.

(** The response carries the array [elems] under [data.categories]. *)
Definition carries_categories (response : value) (elems : list value)
  : Prop :=
  truthy response = true
  /\ truthy (member response "data") = true
  /\ member (member response "data") "categories" = VArr elems.

(** Order of due dates, latest first, tasks without one first. *)
Definition due_ge (a b : value) : Prop :=
  match due_time h a, due_time h b with
  | Some x, Some y => y <= x
  | None, _ => True
  | Some _, None => False
  end.

(** Same due date, or both without one. *)
Definition same_due (a x : value) : bool :=
  match due_time h a, due_time h x with
  | Some p, Some q => p =? q
  | None, None => true
  | _, _ => false
  end.

(** The instant of [updated_at], 0 when it is not a valid date. *)
Definition updated_key (task : value) : Z :=
  match Date_time h (member task "updated_at") with
  | Num t => t
  | NaN => 0
  end.

Definition valid_updated_at (task : value) : Prop :=
  nullish task = false
  /\ exists t, Date_time h (member task "updated_at") = Num t.

Definition same_updated (a x : value) : bool :=
  updated_key a =? updated_key x.

End Vocabulary2.

(** A tag the tags box gives back as it is, for the host's [trim]: not
    empty, without a comma, and without white space at either end, that
    is, [trim] leaves it as it is, also behind the space the join puts in
    front of it, and no text that begins with it trims to nothing. *)
Definition clean_tag (h : Host) (tag : string) : Prop :=
  tag <> ""
  /\ ~ In ","%char (list_ascii_of_string tag)
  /\ trim h tag = tag
  /\ trim h (String " "%char tag) = tag
  /\ (forall rest, trim h (tag ++ rest)%string <> "").

Definition known_status (task : value) : Prop :=
  member task "status" = VStr "todo"
  \/ member task "status" = VStr "in_progress"
  \/ member task "status" = VStr "completed".

Definition emptyPage (st : State) (cats : list value) (taskId : value)
  : Page :=
  mkPage st cats taskId false [] [].

Definition form_example : Form :=
  mkForm "  Write report " "" "high" "" "todo" "  " "work, urgent ,, Q3"
         [("drafted outline", VStr "2024-01-15T10:00:00.123Z")].

Definition task_updated (title : string) (updated_at : value) : value :=
  VObj [("title", VStr title); ("priority", VStr "medium");
        ("status", VStr "todo"); ("updated_at", updated_at)].

Definition updated_examples : list value :=
  [task_updated "second" (VStr "2024-01-12");
   task_updated "newest" (VStr "2024-01-20");
   task_updated "oldest" (VNum 1704067200000)].

Definition category_examples : list value :=
  [task_fields "a" VNull VNull VNull "todo";
   VObj [("title", VStr "b"); ("category_id", VStr "3")];
   VObj [("title", VStr "c"); ("category_id", VNum 3)];
   VObj [("title", VStr "d"); ("category_id", VNull)]].

Definition conflict_error : value :=
  VObj [("message", VStr "Request failed with status code 409");
        ("response", VObj [("status", VNum 409);
                           ("data", VObj [("message", VStr "exists")])])].

(** * Properties *)

(** ** Values, properties and strict equality *)

Lemma get_defined : forall v p, nullish v = false -> exists x, get v p = Ok x.
Proof.
  intros v p Hv. destruct v; simpl in *; try discriminate; eauto.
  - destruct (p =? "length")%string; eauto.
  - destruct (p =? "length")%string; eauto.
Qed.

Lemma get_member : forall v p, nullish v = false -> get v p = Ok (member v p).
Proof.
  intros v p Hv. unfold member.
  destruct (get_defined v p Hv) as [x Hx]. now rewrite Hx.
Qed.

Lemma truthy_not_nullish : forall v, truthy v = true -> nullish v = false.
Proof. now destruct v. Qed.

Lemma strict_eq_VStr : forall v s, strict_eq v (VStr s) = true <-> v = VStr s.
Proof.
  intros v s. destruct v; simpl; split; intro H; try discriminate.
  - apply String.eqb_eq in H. now subst.
  - injection H as ->. apply String.eqb_refl.
Qed.

Lemma strict_eq_VStr_false :
  forall v s, strict_eq v (VStr s) = false <-> v <> VStr s.
Proof.
  intros v s. rewrite <- strict_eq_VStr.
  destruct (strict_eq v (VStr s)); split; congruence.
Qed.

Lemma ltb_Num : forall x y, ltb (Num x) (Num y) = true <-> x < y.
Proof. intros. simpl. apply Z.ltb_lt. Qed.

Lemma geb_Num : forall x y, geb (Num x) (Num y) = true <-> y <= x.
Proof. intros. simpl. apply Z.leb_le. Qed.

(** ** [filter] and [some] *)

Lemma Array_filter_ok :
  forall pred l out,
    Array_filter pred l = Ok out -> out = List.filter (accepts pred) l.
Proof.
  intros pred l. induction l as [|x l IH]; simpl; intros out H.
  - now injection H as <-.
  - unfold accepts at 1. destruct (pred x) as [keep|e]; simpl in H; [|discriminate].
    destruct (Array_filter pred l) as [r|e]; simpl in H; [|discriminate].
    injection H as <-. rewrite (IH r eq_refl). now destruct keep.
Qed.

Lemma Array_filter_total :
  forall pred l,
    Forall (fun x => exists b, pred x = Ok b) l ->
    Array_filter pred l = Ok (List.filter (accepts pred) l).
Proof.
  intros pred l H. induction H as [|x l [b Hb] _ IH]; simpl; auto.
  unfold accepts at 1. rewrite Hb, IH. simpl. now destruct b.
Qed.

Lemma Array_filter_In :
  forall pred l out x,
    Array_filter pred l = Ok out ->
    (In x out <-> In x l /\ pred x = Ok true).
Proof.
  intros pred l out x H. rewrite (Array_filter_ok _ _ _ H), filter_In.
  unfold accepts. split; intros [Hin Hp]; split; auto.
  - destruct (pred x) as [[|]|]; congruence.
  - now rewrite Hp.
Qed.

Lemma Array_some_true :
  forall pred l,
    Forall (fun x => exists b, pred x = Ok b) l ->
    exists b, Array_some pred l = Ok b
              /\ (b = true <-> exists x, In x l /\ pred x = Ok true).
Proof.
  intros pred l H. induction H as [|x l [b Hb] _ [b' [IH1 IH2]]]; simpl.
  - exists false. split; auto. split; [discriminate|]. now intros [x [[] _]].
  - unfold or_else. rewrite Hb. simpl. destruct b.
    + exists true. split; auto. split; auto. intros _. exists x. auto.
    + exists b'. split; auto. rewrite IH2. split.
      * intros [y [Hy Hp]]. exists y. auto.
      * intros [y [[->|Hy] Hp]]; [congruence|]. exists y. auto.
Qed.

(** ** [includes] is substring search *)

Lemma prefix_app :
  forall t s, String.prefix t s = true <-> exists post, s = (t ++ post)%string.
Proof.
  induction t as [|c t IH]; intros s; simpl.
  - split; [intros _; now exists s | intros _; now destruct s].
  - destruct s as [|d s]; simpl.
    + split; [discriminate|]. intros [post H]. discriminate.
    + destruct (ascii_dec c d) as [->|Hne].
      * rewrite IH. split; intros [post H]; exists post.
        -- now rewrite H.
        -- now injection H.
      * split; [discriminate|]. intros [post H]. injection H. congruence.
Qed.

Lemma includes_unfold :
  forall s t,
    includes s t =
    if String.prefix t s then true
    else match s with
         | EmptyString => false
         | String _ s' => includes s' t
         end.
Proof. intros [|c s] t; reflexivity. Qed.

Lemma includes_spec :
  forall s t,
    includes s t = true <-> exists pre post, s = (pre ++ t ++ post)%string.
Proof.
  induction s as [|c s IH]; intros t; rewrite includes_unfold.
  - destruct (String.prefix t "") eqn:Hp.
    + split; [intros _|reflexivity].
      apply prefix_app in Hp. destruct Hp as [post H].
      exists "", post. exact H.
    + split; [discriminate|]. intros [pre [post H]].
      destruct pre; simpl in H; [|discriminate].
      assert (String.prefix t "" = true) by (apply prefix_app; eauto).
      congruence.
  - destruct (String.prefix t (String c s)) eqn:Hp.
    + split; [intros _|reflexivity].
      apply prefix_app in Hp. destruct Hp as [post H].
      exists "", post. exact H.
    + rewrite IH. split.
      * intros [pre [post H]]. exists (String c pre), post. simpl. now rewrite H.
      * intros [pre [post H]]. destruct pre as [|d pre]; simpl in H.
        -- assert (String.prefix t (String c s) = true)
             by (apply prefix_app; eauto).
           congruence.
        -- injection H as _ H. eauto.
Qed.

(** ** The sort *)

Lemma insert_perm :
  forall cmp x l out, insert cmp x l = Ok out -> Permutation (x :: l) out.
Proof.
  intros cmp x l. induction l as [|y l IH]; simpl; intros out H.
  - injection H as <-. apply Permutation_refl.
  - destruct (cmp x y) as [c|e]; simpl in H; [|discriminate].
    destruct (positive c).
    + destruct (insert cmp x l) as [r|e]; simpl in H; [|discriminate].
      injection H as <-. rewrite perm_swap. apply perm_skip. now apply IH.
    + injection H as <-. apply Permutation_refl.
Qed.

Lemma sort_defined_perm :
  forall cmp l out, sort_defined cmp l = Ok out -> Permutation l out.
Proof.
  intros cmp l. induction l as [|x l IH]; simpl; intros out H.
  - injection H as <-. apply perm_nil.
  - destruct (sort_defined cmp l) as [s|e]; simpl in H; [|discriminate].
    apply insert_perm in H. rewrite <- H. apply perm_skip. now apply IH.
Qed.

Lemma filter_split_perm :
  forall (f : value -> bool) l,
    Permutation l (List.filter (fun v => negb (f v)) l ++ List.filter f l).
Proof.
  intros f l. induction l as [|x l IH]; simpl; [apply perm_nil|].
  destruct (f x); simpl.
  - apply Permutation_cons_app. exact IH.
  - apply perm_skip. exact IH.
Qed.

Lemma Array_sort_perm :
  forall cmp l out, Array_sort cmp l = Ok out -> Permutation l out.
Proof.
  intros cmp l out H. unfold Array_sort in H.
  destruct (sort_defined cmp _) as [s|e] eqn:Hs; simpl in H; [|discriminate].
  injection H as <-. apply sort_defined_perm in Hs.
  rewrite <- Hs. apply filter_split_perm.
Qed.

Lemma no_undefined_filter :
  forall l,
    Forall defined l ->
    List.filter (fun v => negb (is_undefined v)) l = l
    /\ List.filter is_undefined l = [].
Proof.
  intros l H. induction H as [|x l Hx _ [IH1 IH2]]; simpl; auto.
  destruct x; simpl in *; try discriminate; rewrite IH1, IH2; auto.
Qed.

Lemma Array_sort_defined :
  forall cmp l,
    Forall defined l ->
    Array_sort cmp l = (s <- sort_defined cmp l;; Ok s).
Proof.
  intros cmp l H. unfold Array_sort.
  destruct (no_undefined_filter l H) as [-> ->].
  destruct (sort_defined cmp l); simpl; auto. now rewrite app_nil_r.
Qed.

Section Comparator.

Variable cmp : value -> value -> result number.
Variable P : value -> Prop.

Section Total.

Hypothesis cmp_total : forall x y, P x -> P y -> exists c, cmp x y = Ok c.

Lemma insert_total :
  forall x l, P x -> Forall P l -> exists out, insert cmp x l = Ok out.
Proof.
  intros x l Hx Hl. induction Hl as [|y l Hy _ [r IH]]; simpl; eauto.
  destruct (cmp_total x y Hx Hy) as [c ->]. simpl.
  destruct (positive c); eauto. rewrite IH. simpl. eauto.
Qed.

Lemma sort_defined_total :
  forall l, Forall P l -> exists out, sort_defined cmp l = Ok out.
Proof.
  intros l Hl. induction Hl as [|x l Hx Hl [s IH]]; simpl; eauto.
  rewrite IH. simpl. apply insert_total; auto.
  apply sort_defined_perm in IH.
  eapply Permutation_Forall; eauto.
Qed.

End Total.

Section Ordered.

Variable le : value -> value -> Prop.

Hypothesis cmp_le :
  forall x y, P x -> P y ->
    exists c, cmp x y = Ok c
              /\ (positive c = false -> le x y)
              /\ (positive c = true -> le y x).

Hypothesis le_trans : forall x y z, le x y -> le y z -> le x z.

Lemma insert_sorted :
  forall x l,
    P x -> Forall P l -> StronglySorted le l ->
    exists out, insert cmp x l = Ok out /\ StronglySorted le out.
Proof.
  intros x l Hx Hl Hs. induction Hl as [|y l Hy Hl IH]; simpl.
  - eexists. split; eauto. repeat constructor.
  - inversion Hs as [|? ? Hs' Hall]; subst.
    destruct (cmp_le x y Hx Hy) as [c [-> [Hneg Hpos]]]. simpl.
    destruct (positive c) eqn:Hc.
    + destruct (IH Hs') as [r [Hr Hsr]]. rewrite Hr. simpl.
      eexists. split; eauto. constructor; auto.
      apply insert_perm in Hr.
      eapply Permutation_Forall; [exact Hr|]. constructor; auto.
    + eexists. split; eauto. constructor; auto.
      constructor; [auto|].
      eapply Forall_impl; [|exact Hall]. intros z Hz.
      eapply le_trans; eauto.
Qed.

Lemma sort_defined_sorted :
  forall l,
    Forall P l ->
    exists out, sort_defined cmp l = Ok out
                /\ Permutation l out /\ StronglySorted le out.
Proof.
  intros l Hl. induction Hl as [|x l Hx Hl [s [IH [Hperm Hs]]]]; simpl.
  - eexists. repeat split; eauto. constructor.
  - rewrite IH. simpl.
    destruct (insert_sorted x s Hx) as [out [Hout Hso]]; auto.
    + eapply Permutation_Forall; eauto.
    + exists out. repeat split; auto.
      apply insert_perm in Hout. rewrite <- Hout. now apply perm_skip.
Qed.

End Ordered.

Section Stable.

Variable same : value -> value -> bool.

Hypothesis cmp_strict :
  forall a x y c,
    P x -> P y -> cmp x y = Ok c -> positive c = true ->
    same a x = true -> same a y = false.

Lemma insert_stable :
  forall a x l out,
    P x -> Forall P l -> insert cmp x l = Ok out ->
    List.filter (same a) out = List.filter (same a) (x :: l).
Proof.
  intros a x l out Hx Hl. revert out.
  induction Hl as [|y l Hy Hl IH]; intros out H; simpl in H.
  - now injection H as <-.
  - destruct (cmp x y) as [c|e] eqn:Hc; simpl in H; [|discriminate].
    destruct (positive c) eqn:Hpos.
    + destruct (insert cmp x l) as [r|e]; simpl in H; [|discriminate].
      injection H as <-. simpl. rewrite (IH r eq_refl). simpl.
      destruct (same a x) eqn:Hax; auto.
      now rewrite (cmp_strict a x y c Hx Hy Hc Hpos Hax).
    + now injection H as <-.
Qed.

Lemma sort_defined_stable :
  forall a l out,
    Forall P l -> sort_defined cmp l = Ok out ->
    List.filter (same a) out = List.filter (same a) l.
Proof.
  intros a l out Hl. revert out.
  induction Hl as [|x l Hx Hl IH]; intros out H; simpl in H.
  - now injection H as <-.
  - destruct (sort_defined cmp l) as [s|e] eqn:Hs; simpl in H; [|discriminate].
    assert (Hps : Forall P s).
    { eapply Permutation_Forall; [|exact Hl].
      exact (sort_defined_perm _ _ _ Hs). }
    rewrite (insert_stable a x s out Hx Hps H).
    simpl. now rewrite (IH s eq_refl).
Qed.

End Stable.

End Comparator.

Lemma StronglySorted_pairs :
  forall (le : value -> value -> Prop) l1 a l2 b l3,
    StronglySorted le (l1 ++ a :: l2 ++ b :: l3) -> le a b.
Proof.
  intros le l1. induction l1 as [|x l1 IH]; simpl; intros a l2 b l3 H.
  - inversion H as [|? ? _ Hall]; subst.
    rewrite Forall_forall in Hall. apply Hall.
    apply in_or_app. right. now left.
  - inversion H; subst. eauto.
Qed.

(** ** The logger's buffer *)

Lemma slice_last_short :
  forall (A : Type) (n : nat) (l : list A),
    (List.length l <= n)%nat -> slice_last n l = l.
Proof.
  intros A n l H. unfold slice_last.
  replace (List.length l - n)%nat with 0%nat by lia. reflexivity.
Qed.

Lemma slice_last_length :
  forall (A : Type) (n : nat) (l : list A),
    (List.length (slice_last n l) <= n)%nat.
Proof. intros A n l. unfold slice_last. rewrite length_skipn. lia. Qed.

Lemma slice_last_app :
  forall (A : Type) (n : nat) (l es : list A),
    slice_last n (slice_last n l ++ es) = slice_last n (l ++ es).
Proof.
  intros A n l es. destruct (Nat.le_gt_cases (List.length l) n) as [Hle|Hgt].
  - now rewrite (slice_last_short A n l Hle).
  - unfold slice_last. rewrite !length_app, length_skipn, !skipn_app.
    rewrite skipn_skipn, length_skipn. f_equal; f_equal; lia.
Qed.

Section LoggerProperties.

Variable h : Host.

Lemma saveToLocalStorage_length :
  forall e st,
    (List.length (frontendLogs st) <= 1000)%nat ->
    (List.length (frontendLogs (saveToLocalStorage h e st)) <= 1000)%nat.
Proof.
  intros e st H. unfold saveToLocalStorage.
  destruct (setItem h _); simpl; auto.
  destruct (1000 <? _)%nat eqn:Hlen.
  - apply slice_last_length.
  - apply Nat.ltb_ge in Hlen. exact Hlen.
Qed.

Lemma saveToLocalStorage_stored :
  forall e st,
    (forall l, (List.length l <= 1000)%nat -> is_ok (setItem h l) = true) ->
    frontendLogs (saveToLocalStorage h e st)
    = slice_last 1000 (frontendLogs st ++ [e]).
Proof.
  intros e st Hok. unfold saveToLocalStorage.
  set (logs := frontendLogs st ++ [e]).
  assert (Hkeep : (if (1000 <? List.length logs)%nat
                   then slice_last 1000 logs else logs)
                  = slice_last 1000 logs).
  { destruct (1000 <? List.length logs)%nat eqn:Hlen; auto.
    apply Nat.ltb_ge in Hlen. now rewrite slice_last_short. }
  rewrite Hkeep.
  specialize (Hok (slice_last 1000 logs) (slice_last_length _ _ _)).
  destruct (setItem h (slice_last 1000 logs)); [reflexivity|discriminate].
Qed.

Lemma appends_length :
  forall es st,
    (List.length (frontendLogs st) <= 1000)%nat ->
    (List.length (frontendLogs (appends h es st)) <= 1000)%nat.
Proof.
  induction es as [|e es IH]; intros st H; [exact H|].
  change (appends h (e :: es) st)
    with (appends h es (saveToLocalStorage h e st)).
  apply IH. now apply saveToLocalStorage_length.
Qed.

Lemma appends_stored :
  forall es st,
    (forall l, (List.length l <= 1000)%nat -> is_ok (setItem h l) = true) ->
    (List.length (frontendLogs st) <= 1000)%nat ->
    frontendLogs (appends h es st) = slice_last 1000 (frontendLogs st ++ es).
Proof.
  induction es as [|e es IH]; intros st Hok H.
  - simpl. now rewrite app_nil_r, slice_last_short.
  - change (appends h (e :: es) st)
      with (appends h es (saveToLocalStorage h e st)).
    rewrite IH; auto.
    + rewrite saveToLocalStorage_stored; auto.
      rewrite slice_last_app, <- app_assoc. reflexivity.
    + now apply saveToLocalStorage_length.
Qed.

(** C7. The stored buffer never grows past 1000 entries, whatever is
    appended; when the store takes every write, it holds the last 1000 of
    all entries, oldest evicted first: after 1001 appends to an empty
    buffer exactly the entries after the first remain, so the 1001st is
    there and the first is gone. *)
Theorem logger_buffer_capacity :
  forall (st : State) (es : list LogEntry),
    (List.length (frontendLogs st) <= 1000)%nat ->
    (List.length (frontendLogs (appends h es st)) <= 1000)%nat
    /\ ((forall l, (List.length l <= 1000)%nat -> is_ok (setItem h l) = true) ->
        frontendLogs (appends h es st)
        = slice_last 1000 (frontendLogs st ++ es)
        /\ (forall first rest,
              frontendLogs st = [] -> es = first :: rest ->
              List.length rest = 1000%nat ->
              frontendLogs (appends h es st) = rest
              /\ In (last rest first) (frontendLogs (appends h es st))
              /\ (~ In first rest ->
                  ~ In first (frontendLogs (appends h es st))))).
Proof.
  intros st es H. split; [now apply appends_length|].
  intros Hok. split; [now apply appends_stored|].
  intros first rest Hst Hes Hlen.
  assert (Hout : frontendLogs (appends h es st) = rest).
  { rewrite appends_stored; auto. rewrite Hst, Hes. simpl.
    unfold slice_last. simpl List.length. rewrite Hlen. reflexivity. }
  rewrite Hout. repeat split; auto.
  destruct rest as [|r rest]; [discriminate|].
  destruct (@exists_last _ (r :: rest)) as [l' [a Ha]]; [discriminate|].
  rewrite Ha, last_last. apply in_or_app. right. now left.
Qed.

End LoggerProperties.

Lemma logger_buffer_capacity_witness :
  let es := List.map numbered_entry (seq 1 1001) in
  let st := initialState "updated_at_desc" 0 in
  (List.length (frontendLogs (appends UTCHost.host es st)) <= 1000)%nat
  /\ frontendLogs (appends UTCHost.host es st)
     = List.map numbered_entry (seq 2 1000).
Proof.
  intros es st.
  assert (H0 : (List.length (frontendLogs st) <= 1000)%nat) by (simpl; lia).
  destruct (logger_buffer_capacity UTCHost.host st es H0) as [Hlen Hrest].
  split; [exact Hlen|].
  destruct (Hrest (fun l _ => eq_refl)) as [_ Hfifo].
  destruct (Hfifo (numbered_entry 1) (List.map numbered_entry (seq 2 1000)))
    as [Hout _].
  - reflexivity.
  - reflexivity.
  - now rewrite length_map, length_seq.
  - exact Hout.
Defined.

(** ** The data client *)

Section DataClientProperties.

Variable h : Host.

Lemma tasks_array_spec :
  forall response,
    nullish response = false ->
    exists r,
      tasks_array response = Ok r
      /\ forall elems, r = Some elems <-> carries_tasks response elems.
Proof.
  intros response Hr. unfold tasks_array, carries_tasks.
  rewrite (get_member response "data" Hr).
  destruct (truthy response) eqn:Ht; simpl.
  - destruct (truthy (member response "data")) eqn:Hd; simpl.
    + rewrite (get_member _ "tasks" (truthy_not_nullish _ Hd)). simpl.
      eexists. split; [reflexivity|]. intros elems.
      split.
      * destruct (member (member response "data") "tasks"); simpl;
          intros H; try discriminate.
        injection H as <-. auto.
      * intros [_ [_ H]]. now rewrite H.
    + exists None. split; auto. intros elems.
      split; [discriminate|]. intros [_ [H _]]. discriminate.
  - exists None. split; auto. intros elems.
    split; [discriminate|]. intros [H _]. discriminate.
Qed.

Lemma log_tasks :
  forall lv m e st, tasks (FrontendLogger_log h lv m e st) = tasks st.
Proof.
  intros lv m e st. unfold FrontendLogger_log, sendToServer, saveToLocalStorage.
  destruct (setItem h _); destruct (lv =? "error")%string; reflexivity.
Qed.

Lemma log_console :
  forall lv m e st,
    exists line extra,
      console (FrontendLogger_log h lv m e st) = console st ++ line :: extra
      /\ (lv = "warn" -> method line = "warn").
Proof.
  intros lv m e st. unfold FrontendLogger_log, sendToServer, saveToLocalStorage.
  match goal with
  | |- context [console_write ?cm ?t ?d st] => exists (mkConsoleLine cm t d)
  end.
  destruct (setItem h _) as [u|err].
  - exists []. split.
    + destruct (lv =? "error")%string; reflexivity.
    + intros ->. reflexivity.
  - exists [mkConsoleLine "error" "保存日志到本地存储失败:" err]. split.
    + destruct (lv =? "error")%string; simpl; now rewrite <- app_assoc.
    + intros ->. reflexivity.
Qed.

Lemma log_stored :
  forall lv m e st,
    (forall l, (List.length l <= 1000)%nat -> is_ok (setItem h l) = true) ->
    exists pre entry,
      frontendLogs (FrontendLogger_log h lv m e st) = pre ++ [entry]
      /\ level entry = lv.
Proof.
  intros lv m e st Hok. unfold FrontendLogger_log.
  set (entry := mkLogEntry _ lv m _).
  set (st1 := console_write _ _ _ st).
  assert (Hs : exists pre,
             frontendLogs (saveToLocalStorage h entry st1) = pre ++ [entry]).
  { rewrite saveToLocalStorage_stored; auto.
    generalize (frontendLogs st1). intros l. unfold slice_last.
    rewrite length_app, skipn_app.
    change (List.length [entry]) with 1%nat.
    replace (List.length l + 1 - 1000 - List.length l)%nat
      with 0%nat by lia.
    eexists. reflexivity. }
  destruct Hs as [pre Hs]. exists pre, entry. split; [|reflexivity].
  destruct (lv =? "error")%string; exact Hs.
Qed.

(** C2. On a response object whose payload is missing or whose [tasks]
    field is not an array, [loadTasks] settles without throwing, leaves the
    task list empty and writes a warning (to the console, and as the newest
    stored entry when the store takes the write); when the field is an
    array, the task list becomes that array. *)
Theorem loadTasks_normalizes_response :
  forall (response : value) (st : State),
    nullish response = false ->
    exists st',
      loadTasks h (Ok response) st = (st', Fulfilled)
      /\ (forall elems, carries_tasks response elems -> tasks st' = elems)
      /\ ((forall elems, ~ carries_tasks response elems) ->
          tasks st' = []
          /\ warned st st'
          /\ ((forall l, (List.length l <= 1000)%nat ->
                         is_ok (setItem h l) = true) ->
              exists pre entry,
                frontendLogs st' = pre ++ [entry] /\ level entry = "warn")).
Proof.
  intros response st Hr.
  destruct (tasks_array_spec response Hr) as [r [Hta Hspec]].
  unfold loadTasks, loadTasks_then.
  rewrite (get_member response "data" Hr), Hta.
  destruct r as [elems|].
  - eexists. split; [reflexivity|]. split.
    + intros elems' Hc. apply Hspec in Hc. simpl. congruence.
    + intros Hno. exfalso. apply (Hno elems). now apply Hspec.
  - eexists. split; [reflexivity|]. split.
    + intros elems Hc. apply Hspec in Hc. discriminate.
    + intros _. split; [reflexivity|]. split.
      * unfold warned. simpl.
        set (st0 := FrontendLogger_log h "info" _ VNull st).
        set (st1 := FrontendLogger_log h "info" _ _ st0).
        destruct (log_console "info" "开始加载任务数据" VNull st)
          as [l0 [x0 [H0 _]]]. fold st0 in H0.
        destruct (log_console "info" "任务数据加载响应"
                    (VObj [("response", member response "data")]) st0)
          as [l1 [x1 [H1 _]]]. fold st1 in H1.
        destruct (log_console "warn" "API返回的任务数据格式不符合预期"
                    (new_Error "tasks数据不是数组") st1)
          as [l2 [x2 [H2 Hm]]].
        exists (l0 :: x0 ++ l1 :: x1), l2, x2. split; [|now apply Hm].
        rewrite H2, H1, H0. rewrite <- !app_assoc. simpl.
        rewrite <- !app_assoc. reflexivity.
      * intros Hok. simpl. now apply log_stored.
Qed.

End DataClientProperties.

Lemma loadTasks_normalizes_response_witness :
  let response := VObj [("data", VObj [("tasks", VStr "not-an-array")])] in
  let st := initialState "updated_at_desc" 1705312800123 in
  exists st',
    loadTasks UTCHost.host (Ok response) st = (st', Fulfilled)
    /\ tasks st' = [] /\ warned st st'.
Proof.
  intros response st.
  destruct (loadTasks_normalizes_response UTCHost.host response st eq_refl)
    as [st' [Hrun [_ Hbad]]].
  exists st'. split; [exact Hrun|].
  destruct Hbad as [Ht [Hw _]].
  - intros elems [_ [_ H]]. discriminate H.
  - split; assumption.
Defined.

(** ** The status filter *)

Section EngineProperties.

Variable h : Host.

Lemma Array_filter_defined :
  forall pred l,
    (forall x, nullish x = false -> exists b, pred x = Ok b) ->
    Forall defined l ->
    Array_filter pred l = Ok (List.filter (accepts pred) l).
Proof.
  intros pred l Hp Hl. apply Array_filter_total.
  eapply Forall_impl; [|exact Hl]. exact Hp.
Qed.

Lemma is_overdue_eval :
  forall bound x,
    nullish x = false ->
    is_overdue h bound x
    = Ok (truthy (member x "due_date")
          && ltb (Date_time h (member x "due_date")) (Num bound)
          && negb (strict_eq (member x "status") (VStr "completed"))).
Proof.
  intros bound x Hx.
  unfold is_overdue, has, due_before, status_is_not, and_then.
  rewrite !(get_member x _ Hx). simpl.
  destruct (truthy _); simpl; auto. destruct (ltb _ _); reflexivity.
Qed.

Lemma is_due_soon_eval :
  forall lo hi x,
    nullish x = false ->
    is_due_soon h lo hi x
    = Ok (truthy (member x "due_date")
          && geb (Date_time h (member x "due_date")) (Num lo)
          && ltb (Date_time h (member x "due_date")) (Num hi)
          && negb (strict_eq (member x "status") (VStr "completed"))).
Proof.
  intros lo hi x Hx.
  unfold is_due_soon, has, due_from, due_before, status_is_not, and_then.
  rewrite !(get_member x _ Hx). simpl.
  destruct (truthy _); simpl; auto. destruct (geb _ _); simpl; auto.
  destruct (ltb _ _); reflexivity.
Qed.

Lemma due_time_Some :
  forall x t,
    due_time h x = Some t <->
    truthy (member x "due_date") = true
    /\ Date_time h (member x "due_date") = Num t.
Proof.
  intros x t. unfold due_time.
  destruct (truthy _); [|split; [discriminate|now intros [H _]]].
  destruct (Date_time h _); split; intros H; try discriminate.
  - now destruct H.
  - injection H as <-. auto.
  - destruct H as [_ H]. now injection H as <-.
Qed.

Lemma is_overdue_true :
  forall st x,
    nullish x = false ->
    (is_overdue h (today h st) x = Ok true <->
     exists t, due_time h x = Some t /\ t < today h st /\ not_completed x).
Proof.
  intros st x Hx. rewrite (is_overdue_eval _ x Hx). unfold not_completed.
  split.
  - intros H. injection H as H. apply andb_prop in H as [H Hs].
    apply andb_prop in H as [Hd Hlt].
    destruct (Date_time h (member x "due_date")) as [|t] eqn:Ht;
      [discriminate|].
    exists t. rewrite due_time_Some. repeat split; auto.
    + now apply ltb_Num.
    + apply strict_eq_VStr_false. now destruct (strict_eq _ _).
  - intros [t [Ht [Hlt Hs]]]. apply due_time_Some in Ht as [Hd Ht].
    rewrite Hd, Ht. apply strict_eq_VStr_false in Hs. rewrite Hs.
    apply ltb_Num in Hlt. now rewrite Hlt.
Qed.

Lemma is_due_soon_true :
  forall st x,
    nullish x = false ->
    (is_due_soon h (today h st) (tomorrow h st) x = Ok true <-> DueSoon h st x).
Proof.
  intros st x Hx. rewrite (is_due_soon_eval _ _ x Hx).
  unfold DueSoon, not_completed. split.
  - intros H. injection H as H. apply andb_prop in H as [H Hs].
    apply andb_prop in H as [H Hlt]. apply andb_prop in H as [Hd Hge].
    destruct (Date_time h (member x "due_date")) as [|t] eqn:Ht;
      [discriminate|].
    exists t. rewrite due_time_Some. repeat split; auto.
    + now apply geb_Num.
    + now apply ltb_Num.
    + apply strict_eq_VStr_false. now destruct (strict_eq _ _).
  - intros [t [Ht [[Hge Hlt] Hs]]]. apply due_time_Some in Ht as [Hd Ht].
    rewrite Hd, Ht. apply strict_eq_VStr_false in Hs. rewrite Hs.
    apply ltb_Num in Hlt. apply geb_Num in Hge. now rewrite Hlt, Hge.
Qed.

Lemma In_not_nullish :
  forall l x, Forall defined l -> In x l -> nullish x = false.
Proof. intros l x H Hin. rewrite Forall_forall in H. now apply H. Qed.

Lemma kept_by_overdue :
  forall st x,
    kept_by h "overdue" st x <->
    exists out,
      Array_filter (is_overdue h (today h st)) (tasks st) = Ok out /\ In x out.
Proof. intros st x. reflexivity. Qed.

Lemma kept_by_due_soon :
  forall st x,
    kept_by h "due_soon" st x <->
    exists out,
      Array_filter (is_due_soon h (today h st) (tomorrow h st)) (tasks st)
      = Ok out /\ In x out.
Proof. intros st x. reflexivity. Qed.

Lemma overdue_due_soon_disjoint :
  forall st x, ~ (kept_by h "overdue" st x /\ kept_by h "due_soon" st x).
Proof.
  intros st x [Ho Hs].
  apply kept_by_overdue in Ho as [o [Ho Hino]].
  apply kept_by_due_soon in Hs as [s [Hs Hins]].
  apply (Array_filter_In _ _ _ x Ho) in Hino as [Hin Hov].
  apply (Array_filter_In _ _ _ x Hs) in Hins as [_ Hds].
  assert (Hx : nullish x = false).
  { destruct x; try reflexivity; discriminate Hov. }
  apply (is_overdue_true st x Hx) in Hov as [t [Ht [Hlt _]]].
  apply (is_due_soon_true st x Hx) in Hds as [t' [Ht' [[Hge _] _]]].
  rewrite Ht in Ht'. injection Ht' as <-. lia.
Qed.

Lemma overdue_run :
  forall st,
    Forall defined (tasks st) ->
    statusFilter h (setFilter "overdue" st) (tasks st)
    = Ok (List.filter (accepts (is_overdue h (today h st))) (tasks st)).
Proof.
  intros st Hall.
  change (statusFilter h (setFilter "overdue" st) (tasks st))
    with (Array_filter (is_overdue h (today h st)) (tasks st)).
  apply Array_filter_defined; auto.
  intros x Hx. rewrite (is_overdue_eval _ x Hx). eauto.
Qed.

Lemma due_soon_run :
  forall st,
    Forall defined (tasks st) ->
    statusFilter h (setFilter "due_soon" st) (tasks st)
    = Ok (List.filter (accepts (is_due_soon h (today h st) (tomorrow h st)))
            (tasks st)).
Proof.
  intros st Hall.
  change (statusFilter h (setFilter "due_soon" st) (tasks st))
    with (Array_filter (is_due_soon h (today h st) (tomorrow h st))
            (tasks st)).
  apply Array_filter_defined; auto.
  intros x Hx. rewrite (is_due_soon_eval _ _ x Hx). eauto.
Qed.

Lemma overdue_In :
  forall st x,
    Forall defined (tasks st) ->
    (In x (List.filter (accepts (is_overdue h (today h st))) (tasks st))
     <-> In x (tasks st)
         /\ exists t, due_time h x = Some t /\ t < today h st
                      /\ not_completed x).
Proof.
  intros st x Hall. rewrite filter_In. split; intros [Hin H]; split; auto.
  - apply is_overdue_true; [eapply In_not_nullish; eauto|].
    unfold accepts in H.
    destruct (is_overdue h _ x) as [[|]|]; congruence.
  - apply is_overdue_true in H; [|eapply In_not_nullish; eauto].
    unfold accepts. now rewrite H.
Qed.

Lemma due_soon_In :
  forall st x,
    Forall defined (tasks st) ->
    (In x (List.filter (accepts (is_due_soon h (today h st) (tomorrow h st)))
             (tasks st))
     <-> In x (tasks st) /\ DueSoon h st x).
Proof.
  intros st x Hall. rewrite filter_In. split; intros [Hin H]; split; auto.
  - apply is_due_soon_true; [eapply In_not_nullish; eauto|].
    unfold accepts in H.
    destruct (is_due_soon h _ _ x) as [[|]|]; congruence.
  - apply is_due_soon_true in H; [|eapply In_not_nullish; eauto].
    unfold accepts. now rewrite H.
Qed.

(** C4. A task whose due date is set and lies strictly before the start
    of the current calendar day, and whose status is not [completed], is
    kept by the [overdue] filter and left out by the [due_soon] filter; no
    task at all is kept by both. *)
Theorem overdue_kept_never_due_soon :
  forall (st : State) (task : value) (t : Z),
    Forall defined (tasks st) ->
    In task (tasks st) ->
    due_time h task = Some t ->
    t < today h st ->
    not_completed task ->
    kept_by h "overdue" st task
    /\ dropped_by h "due_soon" st task
    /\ (forall x, ~ (kept_by h "overdue" st x /\ kept_by h "due_soon" st x)).
Proof.
  intros st task t Hall Hin Ht Hlt Hs. split; [|split].
  - eexists. split; [now apply overdue_run|].
    apply overdue_In; eauto.
  - eexists. split; [now apply due_soon_run|].
    intros Hd. apply due_soon_In in Hd as [_ [t' [Ht' [[Hge _] _]]]]; auto.
    rewrite Ht in Ht'. injection Ht' as <-. lia.
  - apply overdue_due_soon_disjoint.
Qed.

(** C5. The [due_soon] filter keeps, in order, exactly the tasks due from
    the start of today and before the start of the next day whose status
    is not [completed]; in particular a task due exactly at the start of
    today is kept by [due_soon] and left out by [overdue]. *)
Theorem due_soon_is_today_inclusive :
  forall (st : State),
    Forall defined (tasks st) ->
    (exists out,
       statusFilter h (setFilter "due_soon" st) (tasks st) = Ok out
       /\ out = List.filter
                  (accepts (is_due_soon h (today h st) (tomorrow h st)))
                  (tasks st)
       /\ forall x, In x out <-> In x (tasks st) /\ DueSoon h st x)
    /\ (forall task,
          In task (tasks st) ->
          due_time h task = Some (today h st) ->
          not_completed task ->
          kept_by h "due_soon" st task /\ dropped_by h "overdue" st task).
Proof.
  intros st Hall. split.
  - eexists. split; [now apply due_soon_run|]. split; [reflexivity|].
    intros x. now apply due_soon_In.
  - intros task Hin Ht Hs. split.
    + eexists. split; [now apply due_soon_run|].
      apply due_soon_In; auto. split; auto.
      exists (today h st). repeat split; auto; try lia.
      unfold tomorrow. apply nextDate_later.
    + eexists. split; [now apply overdue_run|].
      intros Ho. apply overdue_In in Ho as [_ [t' [Ht' [Hlt _]]]]; auto.
      rewrite Ht in Ht'. injection Ht' as <-. lia.
Qed.

End EngineProperties.

(** ** The search filter *)

Section SearchProperties.

Variable h : Host.
Variable term : string.

Lemma text_includes_text :
  forall s,
    text_includes h term (VStr s) = Ok (includes (toLowerCase h s) term).
Proof. reflexivity. Qed.

Lemma includes_ci_substring :
  forall s, includes (toLowerCase h s) term = true <-> ci_substring h term s.
Proof. intros s. apply includes_spec. Qed.

Lemma title_part :
  forall x,
    well_formed x ->
    exists b,
      (t <- get x "title";; text_includes h term t) = Ok b
      /\ (b = true <->
          exists s, member x "title" = VStr s /\ ci_substring h term s).
Proof.
  intros x [Hx [[s Ht] _]]. rewrite (get_member x _ Hx), Ht. simpl.
  eexists. split; [reflexivity|]. rewrite includes_ci_substring. split.
  - intros H. eauto.
  - intros [s' [Hs' H]]. now injection Hs' as <-.
Qed.

Lemma description_part :
  forall x,
    well_formed x ->
    exists b,
      and_then (has x "description")
        (d <- get x "description";; text_includes h term d) = Ok b
      /\ (b = true <->
          exists s, member x "description" = VStr s /\ s <> ""
                    /\ ci_substring h term s).
Proof.
  intros x [Hx [_ [Hd _]]]. unfold has, and_then.
  rewrite !(get_member x _ Hx). simpl.
  destruct (truthy (member x "description")) eqn:Htr.
  - destruct (Hd eq_refl) as [s Hs]. rewrite Hs in *. simpl.
    eexists. split; [reflexivity|]. rewrite includes_ci_substring. split.
    + intros H. exists s. repeat split; auto.
      intros ->. discriminate Htr.
    + intros [s' [Hs' [_ H]]]. now injection Hs' as <-.
  - exists false. split; [reflexivity|]. split; [discriminate|].
    intros [s [Hs [Hne _]]]. rewrite Hs in Htr. simpl in Htr.
    destruct (String.eqb_spec s ""); [contradiction|discriminate].
Qed.

Lemma tags_part :
  forall x,
    well_formed x ->
    exists b,
      and_then (has x "tags")
        (g <- get x "tags";; call_some (text_includes h term) g) = Ok b
      /\ (b = true <->
          exists elems tag, member x "tags" = VArr elems
                            /\ In (VStr tag) elems /\ ci_substring h term tag).
Proof.
  intros x [Hx [_ [_ Hg]]]. unfold has, and_then.
  rewrite !(get_member x _ Hx). simpl.
  destruct (truthy (member x "tags")) eqn:Htr.
  - destruct (Hg eq_refl) as [elems [He Htext]]. rewrite He in *. simpl.
    destruct (Array_some_true (text_includes h term) elems) as [b [Hb Hiff]].
    { eapply Forall_impl; [|exact Htext]. intros v [s ->].
      rewrite text_includes_text. eauto. }
    exists b. split; [exact Hb|]. rewrite Hiff. split.
    + intros [v [Hin Hv]]. rewrite Forall_forall in Htext.
      destruct (Htext v Hin) as [s ->]. rewrite text_includes_text in Hv.
      exists elems, s. repeat split; auto.
      apply includes_ci_substring. congruence.
    + intros [elems' [tag [He' [Hin H]]]]. injection He' as <-.
      exists (VStr tag). split; auto. rewrite text_includes_text.
      apply includes_ci_substring in H. now rewrite H.
  - exists false. split; [reflexivity|]. split; [discriminate|].
    intros [elems [tag [He _]]]. rewrite He in Htr. discriminate.
Qed.

Lemma matchesSearch_spec :
  forall x,
    well_formed x ->
    exists b,
      matchesSearch h term x = Ok b /\ (b = true <-> Matches h term x).
Proof.
  intros x Hwf. unfold matchesSearch, Matches.
  destruct (title_part x Hwf) as [bt [-> Ht]].
  destruct (description_part x Hwf) as [bd [-> Hd]].
  destruct (tags_part x Hwf) as [bg [-> Hg]].
  exists (bt || bd || bg). split.
  - destruct bt, bd, bg; reflexivity.
  - rewrite <- Ht, <- Hd, <- Hg.
    destruct bt, bd, bg; simpl; intuition congruence.
Qed.

End SearchProperties.

Section PipelineProperties.

Variable h : Host.

(** C6. With a non-empty trimmed, case-folded search text, the search
    filter keeps, in order, exactly the tasks in which that text occurs,
    case folded, in the title, in the description when there is one, or in
    a tag; a task that matches through a tag alone is kept. *)
Theorem searchFilter_keeps_matches :
  forall (st : State) (filtered : list value),
    searchTermOf h st <> "" ->
    Forall well_formed filtered ->
    exists out,
      searchFilter h st filtered = Ok out
      /\ out = List.filter (accepts (matchesSearch h (searchTermOf h st)))
                 filtered
      /\ (forall x, In x out <->
                    In x filtered /\ Matches h (searchTermOf h st) x)
      /\ (forall x elems tag,
            In x filtered ->
            member x "tags" = VArr elems ->
            In (VStr tag) elems ->
            ci_substring h (searchTermOf h st) tag ->
            In x out).
Proof.
  intros st filtered Hterm Hwf.
  set (term := searchTermOf h st) in *.
  assert (Hrun : searchFilter h st filtered
                 = Ok (List.filter (accepts (matchesSearch h term)) filtered)).
  { unfold searchFilter. fold term. simpl.
    destruct (String.eqb_spec term ""); [contradiction|]. simpl.
    apply Array_filter_total.
    eapply Forall_impl; [|exact Hwf]. intros x Hx.
    destruct (matchesSearch_spec h term x Hx) as [b [Hb _]]. eauto. }
  assert (Hiff : forall x,
             In x (List.filter (accepts (matchesSearch h term)) filtered)
             <-> In x filtered /\ Matches h term x).
  { intros x. rewrite filter_In. rewrite Forall_forall in Hwf.
    split; intros [Hin H]; split; auto;
      destruct (matchesSearch_spec h term x (Hwf x Hin)) as [b [Hb Hiff]];
      unfold accepts in *; rewrite Hb in *.
    - apply Hiff. now destruct b.
    - apply Hiff in H. now subst b. }
  eexists. split; [exact Hrun|]. split; [reflexivity|]. split; [exact Hiff|].
  intros x elems tag Hin He Htag Hci. apply Hiff. split; auto.
  right. right. eauto.
Qed.

End PipelineProperties.

(** ** Totality on well-formed tasks *)

Section TotalityProperties.

Variable h : Host.

Lemma well_formed_defined :
  forall l, Forall well_formed l -> Forall defined l.
Proof. intros l H. eapply Forall_impl; [|exact H]. now intros x [Hx _]. Qed.






Lemma by_due_date_asc_eval :
  forall a b,
    nullish a = false -> nullish b = false ->
    by_due_date_asc h a b
    = Ok (if negb (truthy (member a "due_date"))
             && negb (truthy (member b "due_date")) then Num 0
          else if negb (truthy (member a "due_date")) then Num 1
          else if negb (truthy (member b "due_date")) then Num (-1)
          else sub (Date_time h (member a "due_date"))
                   (Date_time h (member b "due_date"))).
Proof.
  intros a b Ha Hb. unfold by_due_date_asc, lacks, and_then.
  rewrite !(get_member a _ Ha), !(get_member b _ Hb). simpl.
  destruct (truthy (member a "due_date")), (truthy (member b "due_date"));
    reflexivity.
Qed.

Lemma by_due_date_desc_eval :
  forall a b,
    nullish a = false -> nullish b = false ->
    by_due_date_desc h a b
    = Ok (if negb (truthy (member a "due_date"))
             && negb (truthy (member b "due_date")) then Num 0
          else if negb (truthy (member a "due_date")) then Num (-1)
          else if negb (truthy (member b "due_date")) then Num 1
          else sub (Date_time h (member b "due_date"))
                   (Date_time h (member a "due_date"))).
Proof.
  intros a b Ha Hb. unfold by_due_date_desc, lacks, and_then.
  rewrite !(get_member a _ Ha), !(get_member b _ Hb). simpl.
  destruct (truthy (member a "due_date")), (truthy (member b "due_date"));
    reflexivity.
Qed.

Lemma by_priority_eval :
  forall a b,
    nullish a = false -> nullish b = false ->
    by_priority a b
    = Ok (sub (priorityOrder (member a "priority"))
              (priorityOrder (member b "priority"))).
Proof.
  intros a b Ha Hb. unfold by_priority.
  now rewrite (get_member a _ Ha), (get_member b _ Hb).
Qed.

Lemma Array_sort_total :
  forall cmp l,
    (forall x y, nullish x = false -> nullish y = false ->
                 exists c, cmp x y = Ok c) ->
    Forall defined l ->
    exists out, Array_sort cmp l = Ok out.
Proof.
  intros cmp l Hc Hl. rewrite Array_sort_defined by exact Hl.
  destruct (sort_defined_total cmp defined Hc l Hl) as [s ->].
  simpl. eauto.
Qed.

Lemma sortStep_defined :
  forall sortBy l,
    Forall defined l ->
    exists out, sortStep h sortBy l = Ok out /\ Permutation l out.
Proof.
  intros sortBy l Hl.
  assert (H : exists out, sortStep h sortBy l = Ok out).
  { unfold sortStep.
    repeat match goal with
           | |- context [if ?b then _ else _] => destruct b
           end;
      try (now exists l); apply Array_sort_total; auto; intros x y Hx Hy.
    - unfold by_updated_at_desc.
      rewrite (get_member x _ Hx), (get_member y _ Hy). simpl. eauto.
    - unfold by_updated_at_asc.
      rewrite (get_member x _ Hx), (get_member y _ Hy). simpl. eauto.
    - rewrite by_due_date_asc_eval; eauto.
    - rewrite by_due_date_desc_eval; eauto.
    - rewrite by_priority_eval; eauto. }
  destruct H as [out H]. exists out. split; auto.
  unfold sortStep in H.
  repeat match type of H with
         | context [if ?b then _ else _] => destruct b
         end;
    try (now apply Array_sort_perm in H).
  injection H as <-. apply Permutation_refl.
Qed.

Lemma sortStep_perm :
  forall sortBy l out, sortStep h sortBy l = Ok out -> Permutation l out.
Proof.
  intros sortBy l out H. unfold sortStep in H.
  repeat match type of H with
         | context [if ?b then _ else _] => destruct b
         end;
    try (now apply Array_sort_perm in H).
  injection H as <-. apply Permutation_refl.
Qed.


End TotalityProperties.

(** ** The sort step *)

Section SortProperties.

Variable h : Host.

Lemma due_le_trans :
  forall x y z, due_le h x y -> due_le h y z -> due_le h x z.
Proof.
  intros x y z. unfold due_le.
  destruct (due_time h x), (due_time h y), (due_time h z);
    intros; auto; try contradiction; lia.
Qed.

Lemma by_due_date_asc_le :
  forall x y,
    valid_due_date h x -> valid_due_date h y ->
    exists c,
      by_due_date_asc h x y = Ok c
      /\ (positive c = false -> due_le h x y)
      /\ (positive c = true -> due_le h y x).
Proof.
  intros x y [Hx Vx] [Hy Vy]. rewrite (by_due_date_asc_eval h x y Hx Hy).
  eexists. split; [reflexivity|].
  unfold due_le, due_time, has_due_date in *.
  destruct (truthy (member x "due_date")) eqn:Tx;
    destruct (truthy (member y "due_date")) eqn:Ty; simpl.
  - destruct (Vx eq_refl) as [tx ->]. destruct (Vy eq_refl) as [ty ->].
    simpl. split; intros H.
    + apply Z.ltb_ge in H. lia.
    + apply Z.ltb_lt in H. lia.
  - destruct (Vx eq_refl) as [tx ->]. split; [auto|discriminate].
  - destruct (Vy eq_refl) as [ty ->]. split; [discriminate|auto].
  - split; auto.
Qed.

(** C3. Sorting by [due_date_asc] returns a rearrangement of the list in
    which no task without a due date comes before a task with one, and the
    tasks with due dates are in ascending order of due date. *)
Theorem due_date_asc_undated_last :
  forall (filtered : list value),
    Forall (valid_due_date h) filtered ->
    exists out,
      sortStep h "due_date_asc" filtered = Ok out
      /\ Permutation filtered out
      /\ forall l1 a l2 b l3,
           out = l1 ++ a :: l2 ++ b :: l3 ->
           (has_due_date b -> has_due_date a)
           /\ (forall ta tb,
                 due_time h a = Some ta -> due_time h b = Some tb ->
                 ta <= tb).
Proof.
  intros filtered Hv.
  assert (Hd : Forall defined filtered).
  { eapply Forall_impl; [|exact Hv]. now intros x [Hx _]. }
  change (sortStep h "due_date_asc" filtered)
    with (Array_sort (by_due_date_asc h) filtered).
  rewrite (Array_sort_defined _ _ Hd).
  destruct (sort_defined_sorted (by_due_date_asc h) (valid_due_date h)
              (due_le h) by_due_date_asc_le due_le_trans filtered Hv)
    as [out [-> [Hperm Hsorted]]].
  exists out. split; [reflexivity|]. split; [exact Hperm|].
  intros l1 a l2 b l3 Hout. rewrite Hout in Hsorted.
  apply StronglySorted_pairs in Hsorted. unfold due_le in Hsorted.
  split.
  - intros Hb.
    assert (Vb : valid_due_date h b).
    { eapply Permutation_Forall in Hv; [|exact Hperm].
      rewrite Forall_forall in Hv. apply Hv. rewrite Hout.
      apply in_or_app. right. right. apply in_or_app. right. now left. }
    destruct Vb as [_ Vb]. destruct (Vb Hb) as [tb Htb].
    assert (Hsome : due_time h b = Some tb) by (apply due_time_Some; auto).
    rewrite Hsome in Hsorted.
    destruct (due_time h a) as [ta|] eqn:Hta; [|contradiction].
    apply due_time_Some in Hta. apply Hta.
  - intros ta tb Hta Htb. now rewrite Hta, Htb in Hsorted.
Qed.

Lemma by_priority_le :
  forall x y,
    recognized x -> recognized y ->
    exists c,
      by_priority x y = Ok c
      /\ (positive c = false -> rank_le x y)
      /\ (positive c = true -> rank_le y x).
Proof.
  intros x y [Hx Rx] [Hy Ry]. rewrite (by_priority_eval x y Hx Hy).
  eexists. split; [reflexivity|]. unfold rank_le.
  destruct (priorityOrder (member x "priority")) as [|rx]; [congruence|].
  destruct (priorityOrder (member y "priority")) as [|ry]; [congruence|].
  simpl. split; intros H.
  - apply Z.ltb_ge in H. lia.
  - apply Z.ltb_lt in H. lia.
Qed.

Lemma rank_le_trans :
  forall x y z, rank_le x y -> rank_le y z -> rank_le x z.
Proof.
  intros x y z. unfold rank_le.
  destruct (priorityOrder (member x "priority")),
           (priorityOrder (member y "priority")),
           (priorityOrder (member z "priority"));
    intros; auto; try contradiction; lia.
Qed.

Lemma by_priority_strict :
  forall a x y c,
    recognized x -> recognized y -> by_priority x y = Ok c ->
    positive c = true -> same_rank a x = true -> same_rank a y = false.
Proof.
  intros a x y c [Hx Rx] [Hy Ry] Hc Hpos Hax.
  rewrite (by_priority_eval x y Hx Hy) in Hc. injection Hc as <-.
  unfold same_rank in *.
  destruct (priorityOrder (member a "priority")) as [|ra]; [discriminate|].
  destruct (priorityOrder (member x "priority")) as [|rx]; [discriminate|].
  destruct (priorityOrder (member y "priority")) as [|ry]; [reflexivity|].
  simpl in Hpos. apply Z.ltb_lt in Hpos. apply Z.eqb_eq in Hax.
  apply Z.eqb_neq. lia.
Qed.

(** X18. Sorting by [priority], on tasks whose priority is [high],
    [medium] or [low], returns a rearrangement in ascending rank that keeps
    tasks of equal rank in their input order. *)
Lemma priority_sort_recognized :
  forall filtered,
    Forall recognized filtered ->
    exists out,
      sortStep h "priority" filtered = Ok out
      /\ Permutation filtered out
      /\ StronglySorted rank_le out
      /\ forall a,
           List.filter (same_rank a) out = List.filter (same_rank a) filtered.
Proof.
  intros filtered Hr.
  assert (Hd : Forall defined filtered).
  { eapply Forall_impl; [|exact Hr]. now intros x [Hx _]. }
  change (sortStep h "priority" filtered)
    with (Array_sort by_priority filtered).
  rewrite (Array_sort_defined _ _ Hd).
  destruct (sort_defined_sorted by_priority recognized rank_le
              by_priority_le rank_le_trans filtered Hr)
    as [out [Hrun [Hperm Hsorted]]].
  rewrite Hrun. exists out. repeat split; auto.
  intros a.
  apply (sort_defined_stable by_priority recognized same_rank
           by_priority_strict a filtered out Hr Hrun).
Qed.

Lemma sortStep_other_key :
  forall sortBy filtered,
    sortBy <> "updated_at_desc" ->
    sortBy <> "updated_at_asc" ->
    sortBy <> "due_date_asc" ->
    sortBy <> "due_date_desc" ->
    sortBy <> "priority" ->
    sortStep h sortBy filtered = Ok filtered.
Proof.
  intros sortBy filtered H1 H2 H3 H4 H5. unfold sortStep.
  repeat match goal with
         | |- context [(?a =? ?b)%string] =>
             destruct (String.eqb_spec a b); [contradiction|]
         end.
  reflexivity.
Qed.

(** C10. For a sort key other than the five the [switch] names, the sort
    step returns its input as it is, so the engine returns the filtered
    list in the order filtering left it. *)
Theorem unknown_sort_key_keeps_order :
  forall (st : State),
    sortSelect st <> "updated_at_desc" ->
    sortSelect st <> "updated_at_asc" ->
    sortSelect st <> "due_date_asc" ->
    sortSelect st <> "due_date_desc" ->
    sortSelect st <> "priority" ->
    (forall filtered, sortStep h (sortSelect st) filtered = Ok filtered)
    /\ getFilteredAndSortedTasks h st
       = (f1 <- statusFilter h st (tasks st);;
          f2 <- categoryFilter st f1;;
          searchFilter h st f2).
Proof.
  intros st H1 H2 H3 H4 H5.
  split; [intros filtered; now apply sortStep_other_key|].
  unfold getFilteredAndSortedTasks.
  destruct (statusFilter h st (tasks st)) as [f1|e]; simpl; auto.
  destruct (categoryFilter st f1) as [f2|e]; simpl; auto.
  destruct (searchFilter h st f2) as [f3|e]; simpl; auto.
  now apply sortStep_other_key.
Qed.

(** C8, as amended. With the status filter [all], the category filter
    [all] and an empty trimmed search text, the three filter steps keep the
    whole list in its order, so the engine returns the task list as the
    sort step leaves it: a rearrangement of the list, and the list itself
    when the sort key is none of the five recognised ones. It returns
    whenever no task is [null] or [undefined]. *)
Theorem all_filter_keeps_every_task :
  forall (st : State),
    currentFilter st = "all" ->
    currentCategory st = VStr "all" ->
    searchTermOf h st = "" ->
    getFilteredAndSortedTasks h st = sortStep h (sortSelect st) (tasks st)
    /\ (forall out,
          getFilteredAndSortedTasks h st = Ok out ->
          Permutation (tasks st) out)
    /\ (Forall defined (tasks st) ->
        exists out, getFilteredAndSortedTasks h st = Ok out)
    /\ (sortSelect st <> "updated_at_desc" ->
        sortSelect st <> "updated_at_asc" ->
        sortSelect st <> "due_date_asc" ->
        sortSelect st <> "due_date_desc" ->
        sortSelect st <> "priority" ->
        getFilteredAndSortedTasks h st = Ok (tasks st)).
Proof.
  intros st Hf Hc Hs.
  assert (Hrun : getFilteredAndSortedTasks h st
                 = sortStep h (sortSelect st) (tasks st)).
  { unfold getFilteredAndSortedTasks, statusFilter, categoryFilter,
      searchFilter.
    rewrite Hf, Hc, Hs. reflexivity. }
  rewrite Hrun. split; [reflexivity|]. split; [|split].
  - intros out. apply sortStep_perm.
  - intros Hd. destruct (sortStep_defined h (sortSelect st) _ Hd) as [out [H _]].
    eauto.
  - intros H1 H2 H3 H4 H5. now apply sortStep_other_key.
Qed.

End SortProperties.

(** ** The engine on concrete inputs *)

(** Sorting a shuffled list by [priority]. *)
Example priority_sort_example :
  getFilteredAndSortedTasks UTCHost.host
    (st_example "all" "priority" ""
       [task_with "low"; task_with "high"; task_with "medium";
        task_with "high"; task_with "low"; task_with "medium"])
  = Ok [task_with "high"; task_with "high"; task_with "medium";
        task_with "medium"; task_with "low"; task_with "low"].
Proof. vm_compute. reflexivity. Qed.

(** C1, the fallback rank. A task whose priority is not in the table gets
    no rank: the comparator yields NaN against every task, the sort reads
    that as a tie, and the task stays ahead of a [high] one, where a task
    ranked as [medium] is moved behind it. *)
Theorem priority_sort_unrecognized_unranked :
  by_priority (task_with "urgent") (task_with "high") = Ok NaN
  /\ by_priority (task_with "medium") (task_with "high") = Ok (Num 1)
  /\ getFilteredAndSortedTasks UTCHost.host
       (st_example "all" "priority" "" [task_with "urgent"; task_with "high"])
     = Ok [task_with "urgent"; task_with "high"]
  /\ getFilteredAndSortedTasks UTCHost.host
       (st_example "all" "priority" "" [task_with "medium"; task_with "high"])
     = Ok [task_with "high"; task_with "medium"]
  /\ getFilteredAndSortedTasks UTCHost.host
       (st_example "all" "priority" ""
          [task_with "low"; task_with "urgent"; task_with "high"])
     = Ok [task_with "low"; task_with "urgent"; task_with "high"].
Proof. repeat split; vm_compute; reflexivity. Qed.

(** C8 does not hold as worded: with every filter on [all] and no search
    text the list still goes through the sort step. *)
Lemma all_filter_still_sorts :
  let st := st_example "all" "priority" ""
              [task_with "low"; task_with "high"] in
  currentFilter st = "all"
  /\ currentCategory st = VStr "all"
  /\ searchInput st = ""
  /\ getFilteredAndSortedTasks UTCHost.host st
     = Ok [task_with "high"; task_with "low"]
  /\ getFilteredAndSortedTasks UTCHost.host st <> Ok (tasks st).
Proof.
  repeat split; try reflexivity.
  vm_compute. discriminate.
Qed.

Lemma all_filter_keeps_every_task_witness :
  let st := st_example "all" "priority" ""
              [task_with "low"; task_with "high"] in
  Permutation (tasks st) [task_with "high"; task_with "low"]
  /\ getFilteredAndSortedTasks UTCHost.host
       (st_example "all" "none" "" [task_with "low"; task_with "high"])
     = Ok [task_with "low"; task_with "high"].
Proof.
  intros st. split.
  - destruct (all_filter_keeps_every_task UTCHost.host st
                eq_refl eq_refl eq_refl) as [_ [Hperm _]].
    apply Hperm. vm_compute. reflexivity.
  - destruct (all_filter_keeps_every_task UTCHost.host
                (st_example "all" "none" ""
                   [task_with "low"; task_with "high"])
                eq_refl eq_refl eq_refl) as [_ [_ [_ Hid]]].
    apply Hid; discriminate.
Defined.

Lemma unknown_sort_key_keeps_order_witness :
  sortStep UTCHost.host "none" [task_with "low"; task_with "high"]
  = Ok [task_with "low"; task_with "high"].
Proof.
  destruct (unknown_sort_key_keeps_order UTCHost.host
              (st_example "all" "none" "" []))
    as [Hid _]; try discriminate.
  apply Hid.
Defined.

Lemma due_date_asc_undated_last_witness :
  exists out,
    sortStep UTCHost.host "due_date_asc" due_examples = Ok out
    /\ Permutation due_examples out
    /\ out = [task_due "sooner" (VStr "2024-01-10");
              task_due "later" (VStr "2024-02-01");
              task_due "undated" VNull;
              task_due "no date field" VUndefined].
Proof.
  destruct (due_date_asc_undated_last UTCHost.host due_examples)
    as [out [Hrun [Hperm _]]].
  - repeat constructor; try (intros H; discriminate H);
      try (intros _; eexists; vm_compute; reflexivity).
  - exists out. repeat split; auto.
    vm_compute in Hrun. now injection Hrun.
Defined.

Ltac well_formed_task :=
  split; [reflexivity|];
  split; [eexists; reflexivity|];
  split;
  [ intros H; first [discriminate H | eexists; reflexivity]
  | intros H;
    first [ discriminate H
          | eexists; split;
            [reflexivity|repeat constructor; eexists; reflexivity] ] ].

Lemma board_well_formed : Forall well_formed board.
Proof.
  unfold board. repeat (apply Forall_cons; [well_formed_task|]).
  apply Forall_nil.
Qed.

Lemma board_defined : Forall defined board.
Proof. now apply well_formed_defined, board_well_formed. Qed.

Lemma overdue_kept_never_due_soon_witness :
  let st := st_example "all" "updated_at_desc" "" board in
  let task := task_fields "Buy milk" VNull
                (VArr [VStr "Report-Q3"; VStr "home"])
                (VStr "2024-01-14") "todo" in
  kept_by UTCHost.host "overdue" st task
  /\ dropped_by UTCHost.host "due_soon" st task.
Proof.
  intros st task.
  destruct (overdue_kept_never_due_soon UTCHost.host st task 1705190400000)
    as [Hk [Hn _]].
  - exact board_defined.
  - simpl. auto.
  - vm_compute. reflexivity.
  - vm_compute. reflexivity.
  - intros H. discriminate H.
  - split; assumption.
Defined.

Lemma due_soon_is_today_inclusive_witness :
  let st := st_example "all" "updated_at_desc" "" board in
  let task := task_fields "Write REPORT" (VStr "quarterly numbers") VUndefined
                (VStr "2024-01-15") "in_progress" in
  due_time UTCHost.host task = Some (today UTCHost.host st)
  /\ kept_by UTCHost.host "due_soon" st task
  /\ dropped_by UTCHost.host "overdue" st task.
Proof.
  intros st task.
  assert (Hdue : due_time UTCHost.host task = Some (today UTCHost.host st))
    by (vm_compute; reflexivity).
  split; [exact Hdue|].
  destruct (due_soon_is_today_inclusive UTCHost.host st board_defined)
    as [_ Hboundary].
  apply Hboundary.
  - simpl. auto.
  - exact Hdue.
  - intros H. discriminate H.
Defined.

Lemma searchFilter_keeps_matches_witness :
  let st := st_example "all" "updated_at_desc" "  Report " board in
  exists out,
    searchFilter UTCHost.host st board = Ok out
    /\ In (task_fields "Buy milk" VNull (VArr [VStr "Report-Q3"; VStr "home"])
             (VStr "2024-01-14") "todo") out.
Proof.
  intros st.
  destruct (searchFilter_keeps_matches UTCHost.host st board)
    as [out [Hrun [_ [_ Htag]]]].
  - vm_compute. discriminate.
  - exact board_well_formed.
  - exists out. split; [exact Hrun|].
    apply (Htag _ [VStr "Report-Q3"; VStr "home"] "Report-Q3").
    + simpl. auto.
    + reflexivity.
    + simpl. auto.
    + exists "", "-q3". vm_compute. reflexivity.
Defined.


(** * Further properties of the page *)

(** ** The logger seen through [FrontendLogger.log] *)

Section LogRunProperties.

Variable h : Host.

Lemma log_frame :
  forall lv m e st,
    let st' := FrontendLogger_log h lv m e st in
    tasks st' = tasks st /\ currentFilter st' = currentFilter st
    /\ currentCategory st' = currentCategory st
    /\ searchInput st' = searchInput st /\ sortSelect st' = sortSelect st
    /\ now st' = now st.
Proof.
  intros lv m e st. unfold FrontendLogger_log, sendToServer, saveToLocalStorage.
  destruct (setItem h _); destruct (lv =? "error")%string; simpl; auto 10.
Qed.

Lemma log_posted :
  forall lv m e st,
    posted (FrontendLogger_log h lv m e st)
    = if (lv =? "error")%string
      then posted st ++ [entry_of h (now st) (lv, m, e)]
      else posted st.
Proof.
  intros lv m e st. unfold FrontendLogger_log, sendToServer, saveToLocalStorage.
  destruct (setItem h _); destruct (lv =? "error")%string; reflexivity.
Qed.

Lemma log_buffer_accepted :
  forall lv m e st,
    (forall l, (List.length l <= 1000)%nat -> is_ok (setItem h l) = true) ->
    frontendLogs (FrontendLogger_log h lv m e st)
    = slice_last 1000 (frontendLogs st ++ [entry_of h (now st) (lv, m, e)]).
Proof.
  intros lv m e st Hok. unfold FrontendLogger_log.
  set (entry := mkLogEntry _ lv m _).
  set (st1 := console_write _ _ _ st).
  change (entry_of h (now st) (lv, m, e)) with entry.
  change (frontendLogs st) with (frontendLogs st1).
  rewrite <- (saveToLocalStorage_stored h entry st1 Hok).
  destruct (lv =? "error")%string; reflexivity.
Qed.

Lemma log_buffer_refused :
  forall lv m e st,
    (forall l, is_ok (setItem h l) = false) ->
    frontendLogs (FrontendLogger_log h lv m e st) = frontendLogs st
    /\ List.length (console (FrontendLogger_log h lv m e st))
       = (List.length (console st) + 2)%nat.
Proof.
  intros lv m e st Hno. unfold FrontendLogger_log, sendToServer,
    saveToLocalStorage.
  match goal with
  | |- context [setItem h ?l] =>
      specialize (Hno l); destruct (setItem h l); [discriminate|]
  end.
  destruct (lv =? "error")%string; simpl; rewrite !length_app; simpl;
    split; auto; lia.
Qed.

(** X3. Whatever the store does, a run of [FrontendLogger.log] calls
    forwards to the server exactly the entries of level [error], in call
    order, and leaves the task list, the filters and the form controls as
    they were. *)
Theorem log_forwards_errors_only :
  forall (calls : list (string * string * value)) (st : State),
    posted (log_calls h calls st)
    = posted st ++ List.map (entry_of h (now st))
                     (List.filter is_error_call calls)
    /\ tasks (log_calls h calls st) = tasks st
    /\ currentFilter (log_calls h calls st) = currentFilter st
    /\ currentCategory (log_calls h calls st) = currentCategory st
    /\ searchInput (log_calls h calls st) = searchInput st
    /\ sortSelect (log_calls h calls st) = sortSelect st.
Proof.
  induction calls as [|[[lv m] e] calls IH]; intros st.
  - simpl. rewrite app_nil_r. auto 10.
  - change (log_calls h ((lv, m, e) :: calls) st)
      with (log_calls h calls (FrontendLogger_log h lv m e st)).
    destruct (IH (FrontendLogger_log h lv m e st))
      as [Hp [Ht [Hf [Hc [Hs Hk]]]]].
    destruct (log_frame lv m e st) as [Ft [Ff [Fc [Fs [Fk Fn]]]]].
    rewrite Hp, Ht, Hf, Hc, Hs, Hk, Ft, Ff, Fc, Fs, Fk, Fn, log_posted.
    repeat split; auto.
    simpl. destruct (lv =? "error")%string; simpl; auto.
    now rewrite <- app_assoc.
Qed.

(** X4. When the store takes every write, after a run of
    [FrontendLogger.log] calls the buffer holds the last 1000 of its old
    entries followed by one entry per call, in call order; when the store
    refuses every write, the buffer stays as it was and each call leaves
    two console lines (its own and the report of the failed write). *)
Theorem log_buffer_after_calls :
  forall (calls : list (string * string * value)) (st : State),
    ((forall l, (List.length l <= 1000)%nat -> is_ok (setItem h l) = true) ->
     (List.length (frontendLogs st) <= 1000)%nat ->
     getLogs (log_calls h calls st)
     = slice_last 1000
         (getLogs st ++ List.map (entry_of h (now st)) calls))
    /\ ((forall l, is_ok (setItem h l) = false) ->
        getLogs (log_calls h calls st) = getLogs st
        /\ List.length (console (log_calls h calls st))
           = (List.length (console st) + 2 * List.length calls)%nat).
Proof.
  unfold getLogs. induction calls as [|[[lv m] e] calls IH]; intros st.
  - split.
    + intros _ Hlen. simpl. now rewrite app_nil_r, slice_last_short.
    + intros _. simpl. split; auto; lia.
  - change (log_calls h ((lv, m, e) :: calls) st)
      with (log_calls h calls (FrontendLogger_log h lv m e st)).
    destruct (IH (FrontendLogger_log h lv m e st)) as [IHok IHno].
    destruct (log_frame lv m e st) as [_ [_ [_ [_ [_ Fn]]]]].
    split.
    + intros Hok Hlen. rewrite IHok; auto.
      * rewrite Fn, log_buffer_accepted by exact Hok.
        rewrite slice_last_app, <- app_assoc. reflexivity.
      * rewrite log_buffer_accepted by exact Hok. apply slice_last_length.
    + intros Hno. destruct (IHno Hno) as [Hb Hc].
      destruct (log_buffer_refused lv m e st Hno) as [Hb1 Hc1].
      rewrite Hb, Hc, Hb1, Hc1. split; auto. simpl List.length. lia.
Qed.

(** X1. When the request fails, or the response is [null] or
    [undefined], [loadTasks] rejects with that failure, empties the task
    list and forwards one [error] entry to the server. *)
Theorem loadTasks_failure_resets :
  forall (outcome : result value) (e : value) (st : State),
    failure_reason outcome = Some e ->
    exists st',
      loadTasks h outcome st = (st', Rejected e)
      /\ tasks st' = []
      /\ exists entry,
           posted st' = posted st ++ [entry]
           /\ level entry = "error" /\ message entry = "加载任务失败".
Proof.
  intros outcome e st Hf.
  assert (Hcatch : forall st0,
             posted st0 = posted st ->
             exists st',
               loadTasks_catch h e st0 = (st', Rejected e)
               /\ tasks st' = []
               /\ exists entry,
                    posted st' = posted st ++ [entry]
                    /\ level entry = "error"
                    /\ message entry = "加载任务失败").
  { intros st0 H0. unfold loadTasks_catch. eexists. split; [reflexivity|].
    split; [reflexivity|]. cbn [posted set_tasks].
    rewrite log_posted, H0. cbn [String.eqb Ascii.eqb Bool.eqb].
    eexists. split; [reflexivity|]. split; reflexivity. }
  unfold loadTasks.
  set (st0 := FrontendLogger_log h "info" "开始加载任务数据" VNull st).
  assert (H0 : posted st0 = posted st) by (unfold st0; now rewrite log_posted).
  destruct outcome as [response|err]; simpl in Hf.
  - destruct (nullish response) eqn:Hn; [|discriminate].
    injection Hf as <-. unfold loadTasks_then.
    destruct response; try discriminate; simpl; now apply Hcatch.
  - injection Hf as <-. now apply Hcatch.
Qed.

End LogRunProperties.

Example error_entries_forwarded_example :
  posted (log_calls UTCHost.host
            [("info", "a", VNull); ("error", "b", new_Error "boom");
             ("warn", "c", VNull); ("error", "d", VNull)]
            (initialState "priority" clock_example))
  = [mkLogEntry "2024-01-15T10:00:00.123Z" "error" "b"
       (Some (VStr "boom", VUndefined));
     mkLogEntry "2024-01-15T10:00:00.123Z" "error" "d" None].
Proof. vm_compute. reflexivity. Qed.

Lemma log_buffer_after_calls_witness :
  let calls := [("info", "a", VNull); ("error", "b", VNull)] in
  let st := initialState "priority" clock_example in
  List.length (getLogs (log_calls UTCHost.host calls st)) = 2%nat
  /\ getLogs (log_calls quota_host calls st) = []
  /\ List.length (console (log_calls quota_host calls st)) = 4%nat.
Proof.
  intros calls st.
  destruct (log_buffer_after_calls UTCHost.host calls st) as [Hok _].
  destruct (log_buffer_after_calls quota_host calls st) as [_ Hno].
  split.
  - rewrite Hok; [reflexivity|intros l _; reflexivity|simpl; lia].
  - destruct Hno as [Hb Hc]; [intros l; reflexivity|].
    split; [exact Hb|exact Hc].
Defined.

Lemma loadTasks_failure_resets_witness :
  exists st',
    loadTasks UTCHost.host (Throw (new_Error "Network Error"))
      (set_tasks board (initialState "priority" clock_example))
    = (st', Rejected (new_Error "Network Error"))
    /\ tasks st' = [].
Proof.
  destruct (loadTasks_failure_resets UTCHost.host
              (Throw (new_Error "Network Error")) (new_Error "Network Error")
              (set_tasks board (initialState "priority" clock_example))
              eq_refl) as [st' [Hrun [Ht _]]].
  exists st'. split; assumption.
Defined.

(** ** loadCategories *)

Section CategoryProperties.

Variable h : Host.

Lemma categories_array_spec :
  forall response,
    nullish response = false ->
    exists r,
      categories_array response = Ok r
      /\ forall elems, r = Some elems <-> carries_categories response elems.
Proof.
  intros response Hr. unfold categories_array, carries_categories.
  rewrite (get_member response "data" Hr).
  destruct (truthy response) eqn:Ht; simpl.
  - destruct (truthy (member response "data")) eqn:Hd; simpl.
    + rewrite (get_member _ "categories" (truthy_not_nullish _ Hd)). simpl.
      eexists. split; [reflexivity|]. intros elems. split.
      * destruct (member (member response "data") "categories"); simpl;
          intros H; try discriminate.
        injection H as <-. auto.
      * intros [_ [_ H]]. now rewrite H.
    + exists None. split; auto. intros elems.
      split; [discriminate|]. intros [_ [H _]]. discriminate.
  - exists None. split; auto. intros elems.
    split; [discriminate|]. intros [H _]. discriminate.
Qed.

Ltac page_simpl :=
  cbn [fst snd categories set_categories session page_log with_session
       tasks console_write].

Lemma page_log_frame :
  forall lv m e pg,
    categories (page_log h lv m e pg) = categories pg
    /\ tasks (session (page_log h lv m e pg)) = tasks (session pg)
    /\ notifications (page_log h lv m e pg) = notifications pg
    /\ requests (page_log h lv m e pg) = requests pg
    /\ loading (page_log h lv m e pg) = loading pg
    /\ currentTaskId (page_log h lv m e pg) = currentTaskId pg.
Proof.
  intros lv m e pg. unfold page_log.
  cbn [categories session notifications requests loading currentTaskId
       with_session].
  destruct (log_frame h lv m e (session pg)) as [Ht _]. auto 10.
Qed.

(** X2. [loadCategories] never touches the task list. On a response that
    is not [null] or [undefined] it fulfils, and the category list becomes
    the array under [data.categories], or the empty list when there is no
    such array; when the request fails it rejects with that failure and
    the category list is emptied. *)
Theorem loadCategories_normalizes :
  forall (outcome : result value) (pg : Page),
    tasks (session (fst (loadCategories h outcome pg))) = tasks (session pg)
    /\ (forall response,
          outcome = Ok response -> nullish response = false ->
          snd (loadCategories h outcome pg) = Fulfilled
          /\ (forall elems,
                carries_categories response elems ->
                categories (fst (loadCategories h outcome pg)) = elems)
          /\ ((forall elems, ~ carries_categories response elems) ->
              categories (fst (loadCategories h outcome pg)) = []))
    /\ (forall e,
          failure_reason outcome = Some e ->
          snd (loadCategories h outcome pg) = Rejected e
          /\ categories (fst (loadCategories h outcome pg)) = []).
Proof.
  intros outcome pg.
  assert (Hcatch : forall e pg0,
             snd (loadCategories_catch h e pg0) = Rejected e
             /\ categories (fst (loadCategories_catch h e pg0)) = []
             /\ tasks (session (fst (loadCategories_catch h e pg0)))
                = tasks (session pg0)).
  { intros e pg0. unfold loadCategories_catch. page_simpl.
    repeat split. apply (log_tasks h). }
  destruct outcome as [response|err].
  - destruct (nullish response) eqn:Hn.
    + (* the callback cannot read the response *)
      assert (Hthen : loadCategories_then h response pg = (pg, Throw TypeError))
        by (destruct response; try discriminate; reflexivity).
      unfold loadCategories. rewrite Hthen.
      destruct (Hcatch TypeError pg) as [Hs [Hc Ht]].
      split; [exact Ht|]. split.
      * intros r Hr. injection Hr as <-. congruence.
      * intros e He. simpl in He. rewrite Hn in He. injection He as <-. auto.
    + destruct (categories_array_spec response Hn) as [r [Hca Hspec]].
      unfold loadCategories, loadCategories_then.
      rewrite (get_member response "data" Hn), Hca.
      destruct r as [elems|]; page_simpl.
      * split; [rewrite !(log_tasks h); reflexivity|]. split.
        -- intros r Hr _. injection Hr as <-. split; [reflexivity|]. split.
           ++ intros elems' Hc. apply Hspec in Hc. congruence.
           ++ intros Hno. exfalso. apply (Hno elems). now apply Hspec.
        -- intros e He. unfold failure_reason in He. rewrite Hn in He.
           discriminate.
      * split; [rewrite !(log_tasks h); reflexivity|]. split.
        -- intros r Hr _. injection Hr as <-. split; [reflexivity|]. split.
           ++ intros elems Hc. apply Hspec in Hc. discriminate.
           ++ reflexivity.
        -- intros e He. unfold failure_reason in He. rewrite Hn in He.
           discriminate.
  - unfold loadCategories.
    destruct (Hcatch err pg) as [Hs [Hc Ht]].
    split; [exact Ht|]. split.
    + intros r Hr. discriminate.
    + intros e He. injection He as <-. auto.
Qed.

End CategoryProperties.

Lemma loadCategories_normalizes_witness :
  let cats := [VObj [("id", VStr "c1"); ("name", VStr "Work");
                     ("color", VStr "#4CAF50")]] in
  let pg := emptyPage (set_tasks board (initialState "priority" clock_example))
              [] VNull in
  categories (fst (loadCategories UTCHost.host
                     (Ok (VObj [("data", VObj [("categories", VArr cats)])]))
                     pg)) = cats
  /\ categories (fst (loadCategories UTCHost.host
                        (Ok (VObj [("data", VStr "oops")])) pg)) = []
  /\ snd (loadCategories UTCHost.host (Throw (new_Error "Network Error")) pg)
     = Rejected (new_Error "Network Error").
Proof.
  intros cats pg. split; [|split].
  - destruct (loadCategories_normalizes UTCHost.host
                (Ok (VObj [("data", VObj [("categories", VArr cats)])])) pg)
      as [_ [Hok _]].
    destruct (Hok _ eq_refl eq_refl) as [_ [Harr _]].
    apply Harr. repeat split.
  - destruct (loadCategories_normalizes UTCHost.host
                (Ok (VObj [("data", VStr "oops")])) pg) as [_ [Hok _]].
    destruct (Hok _ eq_refl eq_refl) as [_ [_ Hbad]].
    apply Hbad. intros elems [_ [_ H]]. discriminate H.
  - destruct (loadCategories_normalizes UTCHost.host
                (Throw (new_Error "Network Error")) pg) as [_ [_ Hfail]].
    destruct (Hfail _ eq_refl) as [Hr _]. exact Hr.
Defined.

(** ** The other filters and sort keys of the engine *)

Section MoreEngineProperties.

Variable h : Host.

Lemma filter_accepts_ext :
  forall pred (f : value -> bool) l,
    Forall defined l ->
    (forall x, nullish x = false -> pred x = Ok (f x)) ->
    List.filter (accepts pred) l = List.filter f l.
Proof.
  intros pred f l Hl Hp. apply filter_ext_in. intros x Hx.
  unfold accepts. rewrite (Hp x (In_not_nullish _ _ Hl Hx)).
  now destruct (f x).
Qed.

Lemma status_is_eval :
  forall s x, nullish x = false -> status_is s x = Ok (status_matches s x).
Proof.
  intros s x Hx. unfold status_is, status_matches.
  now rewrite (get_member x _ Hx).
Qed.

Lemma status_filter_run :
  forall s l,
    Forall defined l ->
    Array_filter (status_is s) l = Ok (List.filter (status_matches s) l).
Proof.
  intros s l Hl. rewrite Array_filter_defined; auto.
  - f_equal. apply filter_accepts_ext; auto. apply status_is_eval.
  - intros x Hx. rewrite status_is_eval; eauto.
Qed.

(** X5. Each of the filters [todo], [in_progress] and [completed] keeps,
    in order, exactly the tasks whose status is strictly equal to its
    name. *)
Theorem status_filter_exact :
  forall (s : string) (st : State),
    Forall defined (tasks st) ->
    s = "todo" \/ s = "in_progress" \/ s = "completed" ->
    exists out,
      statusFilter h (setFilter s st) (tasks st) = Ok out
      /\ out = List.filter (status_matches s) (tasks st)
      /\ forall x, In x out <-> In x (tasks st) /\ member x "status" = VStr s.
Proof.
  intros s st Hall Hs.
  assert (Hrun : statusFilter h (setFilter s st) (tasks st)
                 = Array_filter (status_is s) (tasks st))
    by (destruct Hs as [->|[->| ->]]; reflexivity).
  rewrite Hrun, status_filter_run by exact Hall.
  eexists. split; [reflexivity|]. split; [reflexivity|].
  intros x. rewrite filter_In. unfold status_matches.
  now rewrite strict_eq_VStr.
Qed.

(** X6. A filter name outside the six the page offers filters nothing:
    the status step returns its input as it is. *)
Theorem unknown_filter_keeps_all :
  forall (st : State) (filtered : list value),
    currentFilter st <> "all" ->
    currentFilter st <> "todo" ->
    currentFilter st <> "in_progress" ->
    currentFilter st <> "completed" ->
    currentFilter st <> "overdue" ->
    currentFilter st <> "due_soon" ->
    statusFilter h st filtered = Ok filtered.
Proof.
  intros st filtered H1 H2 H3 H4 H5 H6. unfold statusFilter.
  repeat match goal with
         | |- context [(?a =? ?b)%string] =>
             destruct (String.eqb_spec a b); [contradiction|]
         end.
  reflexivity.
Qed.

(** X7. With the category [all] the category step returns its input. With
    any other category it keeps, in order, exactly the tasks whose
    [category_id] is strictly equal to it: for a text id a task is kept
    only when its [category_id] is that same text (not the number it
    spells, not [null], not absent). *)
Theorem category_filter_exact :
  forall (st : State) (filtered : list value),
    Forall defined filtered ->
    (currentCategory st = VStr "all" -> categoryFilter st filtered = Ok filtered)
    /\ (currentCategory st <> VStr "all" ->
        exists out,
          categoryFilter st filtered = Ok out
          /\ out = List.filter (category_matches (currentCategory st)) filtered
          /\ forall id,
               currentCategory st = VStr id ->
               forall x, In x out <->
                         In x filtered /\ member x "category_id" = VStr id).
Proof.
  intros st filtered Hall. unfold categoryFilter. split.
  - intros ->. reflexivity.
  - intros Hne. apply strict_eq_VStr_false in Hne. rewrite Hne. simpl.
    assert (Hrun : Array_filter (in_category (currentCategory st)) filtered
                   = Ok (List.filter (category_matches (currentCategory st))
                           filtered)).
    { rewrite Array_filter_defined; auto.
      - f_equal. apply filter_accepts_ext; auto.
        intros x Hx. unfold in_category, category_matches.
        now rewrite (get_member x _ Hx).
      - intros x Hx. unfold in_category. rewrite (get_member x _ Hx).
        simpl. eauto. }
    eexists. split; [exact Hrun|]. split; [reflexivity|].
    intros id Hid x. rewrite filter_In, Hid. unfold category_matches.
    now rewrite strict_eq_VStr.
Qed.

Lemma due_ge_trans :
  forall x y z, due_ge h x y -> due_ge h y z -> due_ge h x z.
Proof.
  intros x y z. unfold due_ge.
  destruct (due_time h x), (due_time h y), (due_time h z);
    intros; auto; try contradiction; lia.
Qed.

Lemma by_due_date_desc_ge :
  forall x y,
    valid_due_date h x -> valid_due_date h y ->
    exists c,
      by_due_date_desc h x y = Ok c
      /\ (positive c = false -> due_ge h x y)
      /\ (positive c = true -> due_ge h y x).
Proof.
  intros x y [Hx Vx] [Hy Vy]. rewrite (by_due_date_desc_eval h x y Hx Hy).
  eexists. split; [reflexivity|].
  unfold due_ge, due_time, has_due_date in *.
  destruct (truthy (member x "due_date")) eqn:Tx;
    destruct (truthy (member y "due_date")) eqn:Ty; simpl.
  - destruct (Vx eq_refl) as [tx ->]. destruct (Vy eq_refl) as [ty ->].
    simpl. split; intros H.
    + apply Z.ltb_ge in H. lia.
    + apply Z.ltb_lt in H. lia.
  - destruct (Vx eq_refl) as [tx ->]. split; [discriminate|auto].
  - destruct (Vy eq_refl) as [ty ->]. split; [auto|discriminate].
  - split; auto.
Qed.

Lemma by_due_date_desc_strict :
  forall a x y c,
    valid_due_date h x -> valid_due_date h y ->
    by_due_date_desc h x y = Ok c -> positive c = true ->
    same_due h a x = true -> same_due h a y = false.
Proof.
  intros a x y c [Hx Vx] [Hy Vy] Hc Hpos Hax.
  rewrite (by_due_date_desc_eval h x y Hx Hy) in Hc. injection Hc as <-.
  unfold same_due, due_time, has_due_date in *.
  destruct (truthy (member x "due_date")) eqn:Tx;
    destruct (truthy (member y "due_date")) eqn:Ty; simpl in Hpos;
    try discriminate.
  - destruct (Vx eq_refl) as [tx Ex]. destruct (Vy eq_refl) as [ty Ey].
    rewrite Ex, Ey in *. simpl in Hpos. apply Z.ltb_lt in Hpos.
    destruct (truthy (member a "due_date")); [|discriminate].
    destruct (Date_time h (member a "due_date")); [discriminate|].
    apply Z.eqb_eq in Hax. apply Z.eqb_neq. lia.
  - destruct (Vx eq_refl) as [tx Ex]. rewrite Ex in *.
    destruct (truthy (member a "due_date")); [|discriminate].
    now destruct (Date_time h (member a "due_date")).
Qed.

(** X8. Sorting by [due_date_desc] returns a rearrangement of the list in
    which no task with a due date comes before a task without one, the
    tasks with due dates are in descending order of due date, and tasks
    with the same due date (or both without) keep their input order. *)
Theorem due_date_desc_undated_first :
  forall (filtered : list value),
    Forall (valid_due_date h) filtered ->
    exists out,
      sortStep h "due_date_desc" filtered = Ok out
      /\ Permutation filtered out
      /\ (forall l1 a l2 b l3,
            out = l1 ++ a :: l2 ++ b :: l3 ->
            (has_due_date a -> has_due_date b)
            /\ (forall ta tb,
                  due_time h a = Some ta -> due_time h b = Some tb ->
                  tb <= ta))
      /\ (forall a,
            List.filter (same_due h a) out
            = List.filter (same_due h a) filtered).
Proof.
  intros filtered Hv.
  assert (Hd : Forall defined filtered).
  { eapply Forall_impl; [|exact Hv]. now intros x [Hx _]. }
  change (sortStep h "due_date_desc" filtered)
    with (Array_sort (by_due_date_desc h) filtered).
  rewrite (Array_sort_defined _ _ Hd).
  destruct (sort_defined_sorted (by_due_date_desc h) (valid_due_date h)
              (due_ge h) by_due_date_desc_ge due_ge_trans filtered Hv)
    as [out [Hrun [Hperm Hsorted]]].
  rewrite Hrun. exists out. split; [reflexivity|]. split; [exact Hperm|].
  split.
  - intros l1 a l2 b l3 Hout. rewrite Hout in Hsorted.
    apply StronglySorted_pairs in Hsorted. unfold due_ge in Hsorted.
    split.
    + intros Ha.
      assert (Va : valid_due_date h a).
      { eapply Permutation_Forall in Hv; [|exact Hperm].
        rewrite Forall_forall in Hv. apply Hv. rewrite Hout.
        apply in_or_app. right. now left. }
      destruct Va as [_ Va]. destruct (Va Ha) as [ta Hta].
      assert (Hsome : due_time h a = Some ta) by (apply due_time_Some; auto).
      rewrite Hsome in Hsorted.
      destruct (due_time h b) as [tb|] eqn:Htb; [|contradiction].
      apply due_time_Some in Htb. apply Htb.
    + intros ta tb Hta Htb. now rewrite Hta, Htb in Hsorted.
  - intros a.
    apply (sort_defined_stable (by_due_date_desc h) (valid_due_date h)
             (same_due h) by_due_date_desc_strict a filtered out Hv Hrun).
Qed.

Lemma by_updated_at_desc_eval :
  forall a b,
    nullish a = false -> nullish b = false ->
    by_updated_at_desc h a b
    = Ok (sub (Date_time h (member b "updated_at"))
              (Date_time h (member a "updated_at"))).
Proof.
  intros a b Ha Hb. unfold by_updated_at_desc.
  now rewrite (get_member a _ Ha), (get_member b _ Hb).
Qed.

Lemma by_updated_at_asc_eval :
  forall a b,
    nullish a = false -> nullish b = false ->
    by_updated_at_asc h a b
    = Ok (sub (Date_time h (member a "updated_at"))
              (Date_time h (member b "updated_at"))).
Proof.
  intros a b Ha Hb. unfold by_updated_at_asc.
  now rewrite (get_member a _ Ha), (get_member b _ Hb).
Qed.

Ltac updated_cases x y Vx Vy :=
  unfold updated_key, same_updated, updated_key in *;
  destruct Vx as [tx Ex]; destruct Vy as [ty Ey]; rewrite ?Ex, ?Ey in *.

Lemma by_updated_at_desc_ge :
  forall x y,
    valid_updated_at h x -> valid_updated_at h y ->
    exists c,
      by_updated_at_desc h x y = Ok c
      /\ (positive c = false -> updated_key h y <= updated_key h x)
      /\ (positive c = true -> updated_key h x <= updated_key h y).
Proof.
  intros x y [Hx Vx] [Hy Vy]. rewrite (by_updated_at_desc_eval x y Hx Hy).
  eexists. split; [reflexivity|]. updated_cases x y Vx Vy. simpl.
  split; intros H; [apply Z.ltb_ge in H|apply Z.ltb_lt in H]; lia.
Qed.

Lemma by_updated_at_asc_le :
  forall x y,
    valid_updated_at h x -> valid_updated_at h y ->
    exists c,
      by_updated_at_asc h x y = Ok c
      /\ (positive c = false -> updated_key h x <= updated_key h y)
      /\ (positive c = true -> updated_key h y <= updated_key h x).
Proof.
  intros x y [Hx Vx] [Hy Vy]. rewrite (by_updated_at_asc_eval x y Hx Hy).
  eexists. split; [reflexivity|]. updated_cases x y Vx Vy. simpl.
  split; intros H; [apply Z.ltb_ge in H|apply Z.ltb_lt in H]; lia.
Qed.

Lemma by_updated_at_desc_strict :
  forall a x y c,
    valid_updated_at h x -> valid_updated_at h y ->
    by_updated_at_desc h x y = Ok c -> positive c = true ->
    same_updated h a x = true -> same_updated h a y = false.
Proof.
  intros a x y c [Hx Vx] [Hy Vy] Hc Hpos Hax.
  rewrite (by_updated_at_desc_eval x y Hx Hy) in Hc. injection Hc as <-.
  updated_cases x y Vx Vy. simpl in Hpos. apply Z.ltb_lt in Hpos.
  apply Z.eqb_eq in Hax. apply Z.eqb_neq. lia.
Qed.

Lemma by_updated_at_asc_strict :
  forall a x y c,
    valid_updated_at h x -> valid_updated_at h y ->
    by_updated_at_asc h x y = Ok c -> positive c = true ->
    same_updated h a x = true -> same_updated h a y = false.
Proof.
  intros a x y c [Hx Vx] [Hy Vy] Hc Hpos Hax.
  rewrite (by_updated_at_asc_eval x y Hx Hy) in Hc. injection Hc as <-.
  updated_cases x y Vx Vy. simpl in Hpos. apply Z.ltb_lt in Hpos.
  apply Z.eqb_eq in Hax. apply Z.eqb_neq. lia.
Qed.

(** X9. On tasks whose [updated_at] is a valid date, sorting by
    [updated_at_desc] returns a rearrangement with the latest update
    first, sorting by [updated_at_asc] one with the earliest first, and
    both keep tasks updated at the same instant in their input order. *)
Theorem updated_at_sorts_ordered :
  forall (filtered : list value),
    Forall (valid_updated_at h) filtered ->
    (exists out,
       sortStep h "updated_at_desc" filtered = Ok out
       /\ Permutation filtered out
       /\ StronglySorted (fun a b => updated_key h b <= updated_key h a) out
       /\ forall a, List.filter (same_updated h a) out
                    = List.filter (same_updated h a) filtered)
    /\ (exists out,
          sortStep h "updated_at_asc" filtered = Ok out
          /\ Permutation filtered out
          /\ StronglySorted (fun a b => updated_key h a <= updated_key h b) out
          /\ forall a, List.filter (same_updated h a) out
                       = List.filter (same_updated h a) filtered).
Proof.
  intros filtered Hv.
  assert (Hd : Forall defined filtered).
  { eapply Forall_impl; [|exact Hv]. now intros x [Hx _]. }
  split.
  - change (sortStep h "updated_at_desc" filtered)
      with (Array_sort (by_updated_at_desc h) filtered).
    rewrite (Array_sort_defined _ _ Hd).
    destruct (sort_defined_sorted (by_updated_at_desc h) (valid_updated_at h)
                (fun a b => updated_key h b <= updated_key h a)
                by_updated_at_desc_ge
                (fun x y z Hxy Hyz => Z.le_trans _ _ _ Hyz Hxy) filtered Hv)
      as [out [Hrun [Hperm Hsorted]]].
    rewrite Hrun. exists out. repeat split; auto.
    intros a.
    apply (sort_defined_stable (by_updated_at_desc h) (valid_updated_at h)
             (same_updated h) by_updated_at_desc_strict a filtered out Hv Hrun).
  - change (sortStep h "updated_at_asc" filtered)
      with (Array_sort (by_updated_at_asc h) filtered).
    rewrite (Array_sort_defined _ _ Hd).
    destruct (sort_defined_sorted (by_updated_at_asc h) (valid_updated_at h)
                (fun a b => updated_key h a <= updated_key h b)
                by_updated_at_asc_le
                (fun x y z Hxy Hyz => Z.le_trans _ _ _ Hxy Hyz) filtered Hv)
      as [out [Hrun [Hperm Hsorted]]].
    rewrite Hrun. exists out. repeat split; auto.
    intros a.
    apply (sort_defined_stable (by_updated_at_asc h) (valid_updated_at h)
             (same_updated h) by_updated_at_asc_strict a filtered out Hv Hrun).
Qed.

Lemma filter_filter :
  forall (f g : value -> bool) l,
    List.filter g (List.filter f l) = List.filter (fun x => f x && g x) l.
Proof.
  intros f g l. induction l as [|x l IH]; simpl; auto.
  destruct (f x); simpl; [destruct (g x)|]; now rewrite IH.
Qed.

Lemma filter_all :
  forall l : list value, l = List.filter (fun _ => true) l.
Proof. intros l. induction l; simpl; congruence. Qed.

Lemma statusFilter_is_filter :
  forall st l out,
    statusFilter h st l = Ok out -> exists keep, out = List.filter keep l.
Proof.
  intros st l out H. unfold statusFilter in H.
  repeat match type of H with
         | context [if ?b then _ else _] => destruct b
         end;
    try (injection H as <-; eexists; apply filter_all);
    apply Array_filter_ok in H; eauto.
Qed.

Lemma categoryFilter_is_filter :
  forall st l out,
    categoryFilter st l = Ok out -> exists keep, out = List.filter keep l.
Proof.
  intros st l out H. unfold categoryFilter in H. destruct (negb _).
  - apply Array_filter_ok in H. eauto.
  - injection H as <-. eexists. apply filter_all.
Qed.

Lemma searchFilter_is_filter :
  forall st l out,
    searchFilter h st l = Ok out -> exists keep, out = List.filter keep l.
Proof.
  intros st l out H. unfold searchFilter in H. destruct (truthy _).
  - apply Array_filter_ok in H. eauto.
  - injection H as <-. eexists. apply filter_all.
Qed.

(** X10. Whenever the engine returns, for any state at all, its result is
    a rearrangement of a selection of the task list: every task it shows
    is a task of the list, none is shown more often than it is listed, and
    the list has at least as many tasks as the result. *)
Theorem engine_output_is_selection :
  forall (st : State) (out : list value),
    getFilteredAndSortedTasks h st = Ok out ->
    (exists keep, Permutation (List.filter keep (tasks st)) out)
    /\ incl out (tasks st)
    /\ (List.length out <= List.length (tasks st))%nat.
Proof.
  intros st out H. unfold getFilteredAndSortedTasks in H.
  destruct (statusFilter h st (tasks st)) as [l1|] eqn:H1; [|discriminate].
  simpl in H.
  destruct (categoryFilter st l1) as [l2|] eqn:H2; [|discriminate].
  simpl in H.
  destruct (searchFilter h st l2) as [l3|] eqn:H3; [|discriminate].
  simpl in H.
  apply statusFilter_is_filter in H1 as [k1 ->].
  apply categoryFilter_is_filter in H2 as [k2 ->].
  apply searchFilter_is_filter in H3 as [k3 ->].
  apply sortStep_perm in H. rewrite !filter_filter in H.
  split; [eauto|]. split.
  - intros x Hx. apply (Permutation_in _ (Permutation_sym H)) in Hx.
    apply filter_In in Hx. tauto.
  - rewrite <- (Permutation_length H). apply filter_length_le.
Qed.

End MoreEngineProperties.

(** ** Cards, counters and failure messages *)

Section CardProperties.

Variable h : Host.

Lemma dueDateClass_eval :
  forall st x,
    nullish x = false ->
    dueDateClass h st x
    = Ok (if truthy (member x "due_date") then
            if ltb (Date_time h (member x "due_date")) (Num (today h st))
               && negb (strict_eq (member x "status") (VStr "completed"))
            then "overdue"
            else if num_eqb (Date_time h (member x "due_date"))
                      (Num (today h st))
                    && negb (strict_eq (member x "status") (VStr "completed"))
                 then "due-soon" else ""
          else "").
Proof.
  intros st x Hx. unfold dueDateClass, status_is_not, and_then, today.
  rewrite !(get_member x _ Hx). simpl.
  destruct (truthy (member x "due_date")); simpl; auto.
  destruct (ltb _ _); simpl;
    [destruct (negb _); simpl; auto|];
    destruct (num_eqb _ _); simpl; auto; destruct (negb _); auto.
Qed.

Ltac card_bool :=
  match goal with
  | |- context [(?a <=? ?b)] =>
      first [ replace (a <=? b) with true by (symmetry; apply Z.leb_le; lia)
            | replace (a <=? b) with false by (symmetry; apply Z.leb_gt; lia) ]
  | |- context [(?a <? ?b)] =>
      first [ replace (a <? b) with true by (symmetry; apply Z.ltb_lt; lia)
            | replace (a <? b) with false by (symmetry; apply Z.ltb_ge; lia) ]
  end.

Ltac card_leaf :=
  repeat match goal with
         | |- _ /\ _ => split
         | |- _ <-> _ => split
         | |- forall _, _ => intro
         | H : _ /\ _ |- _ => destruct H
         | H : Some _ = Some _ |- _ => injection H as H; subst
         | H : _ <> VStr _ |- _ => apply strict_eq_VStr_false in H
         end;
  try discriminate; try congruence; try lia;
  repeat card_bool; try reflexivity; try congruence.

(** X11. The class a task's card gets agrees with the [overdue] filter but
    is narrower than the [due_soon] filter: the card is marked [overdue]
    exactly when the [overdue] filter keeps the task, and [due-soon]
    exactly when the task is not completed and due at the very start of
    today; a task due later today is kept by the [due_soon] filter and its
    card is not marked. *)
Theorem card_class_and_filters :
  forall (st : State) (task : value),
    nullish task = false ->
    exists c,
      dueDateClass h st task = Ok c
      /\ (c = "overdue" <-> is_overdue h (today h st) task = Ok true)
      /\ (c = "due-soon" <->
          due_time h task = Some (today h st) /\ not_completed task)
      /\ (c = "due-soon" ->
          is_due_soon h (today h st) (tomorrow h st) task = Ok true)
      /\ (forall t,
            due_time h task = Some t ->
            today h st < t < tomorrow h st ->
            not_completed task ->
            is_due_soon h (today h st) (tomorrow h st) task = Ok true
            /\ c = "").
Proof.
  intros st task Hx. rewrite (dueDateClass_eval st task Hx).
  eexists. split; [reflexivity|].
  rewrite (is_overdue_eval h _ task Hx), (is_due_soon_eval h _ _ task Hx).
  unfold not_completed. rewrite <- strict_eq_VStr_false.
  assert (Hlater := nextDate_later h (today h st)).
  fold (tomorrow h st) in Hlater.
  unfold due_time.
  destruct (truthy (member task "due_date")); simpl;
    [|solve [card_leaf]].
  destruct (Date_time h (member task "due_date")) as [|d]; simpl;
    [solve [card_leaf]|].
  destruct (strict_eq (member task "status") (VStr "completed")) eqn:Es;
    simpl; rewrite ?andb_false_r, ?andb_true_r; [solve [card_leaf]|].
  destruct (Z.ltb_spec d (today h st)); [solve [card_leaf]|].
  destruct (Z.eqb_spec d (today h st)); solve [card_leaf].
Qed.

(** X17. A priority the sort table cannot rank is shown with the label of
    [medium] and the flag of [low]. *)
Theorem unranked_priority_display :
  forall (priority : value),
    priorityOrder priority = NaN ->
    getPriorityText priority = getPriorityText (VStr "medium")
    /\ getPriorityIcon priority = getPriorityIcon (VStr "low")
    /\ getPriorityIcon priority <> getPriorityIcon (VStr "medium").
Proof.
  intros priority Hr. unfold getPriorityText, getPriorityIcon.
  assert (Hs : forall s,
             s = "high" \/ s = "medium" \/ s = "low" ->
             strict_eq priority (VStr s) = false).
  { intros s Hs. apply strict_eq_VStr_false. intros ->.
    destruct Hs as [->|[->| ->]]; discriminate Hr. }
  rewrite !Hs by auto. simpl. repeat split. discriminate.
Qed.

End CardProperties.

Section StatsProperties.

Lemma count_disjoint :
  forall (f g k : value -> bool) (l : list value),
    (forall x, f x = true -> g x = false /\ k x = false) ->
    (forall x, g x = true -> k x = false) ->
    (List.length (List.filter f l) + List.length (List.filter g l)
     + List.length (List.filter k l) <= List.length l)%nat
    /\ ((List.length (List.filter f l) + List.length (List.filter g l)
         + List.length (List.filter k l) = List.length l)%nat
        <-> Forall (fun x => f x = true \/ g x = true \/ k x = true) l).
Proof.
  intros f g k l Hf Hg. induction l as [|x l [IHle IHeq]]; simpl.
  - split; [lia|]. split; auto.
  - destruct (f x) eqn:Fx.
    + destruct (Hf x Fx) as [-> ->]. simpl. split; [lia|].
      split.
      * intros H. constructor; auto. apply IHeq. lia.
      * intros H. inversion H; subst. apply IHeq in H3. lia.
    + destruct (g x) eqn:Gx.
      * rewrite (Hg x Gx). simpl. split; [lia|]. split.
        -- intros H. constructor; auto. apply IHeq. lia.
        -- intros H. inversion H; subst. apply IHeq in H3. lia.
      * destruct (k x) eqn:Kx; simpl.
        -- split; [lia|]. split.
           ++ intros H. constructor; auto. apply IHeq. lia.
           ++ intros H. inversion H; subst. apply IHeq in H3. lia.
        -- split; [lia|]. split.
           ++ intros H. exfalso. lia.
           ++ intros H. inversion H; subst.
              destruct H2 as [H2|[H2|H2]]; congruence.
Qed.

Lemma status_matches_disjoint :
  forall s1 s2 x,
    s1 <> s2 -> status_matches s1 x = true -> status_matches s2 x = false.
Proof.
  intros s1 s2 x Hne H. unfold status_matches in *.
  apply strict_eq_VStr in H. apply strict_eq_VStr_false. congruence.
Qed.

(** X12. On a task list without [null] or [undefined] elements
    [updateStats] returns the length of the list and, for each of [todo],
    [in_progress] and [completed], the number of tasks with exactly that
    status; the three counts never add up to more than the total, and to
    the total exactly when every task has one of the three statuses. *)
Theorem updateStats_counts :
  forall (st : State),
    Forall defined (tasks st) ->
    exists s,
      updateStats st = Ok s
      /\ totalTasks s = Z.of_nat (List.length (tasks st))
      /\ todoTasks s
         = Z.of_nat (List.length (List.filter (status_matches "todo")
                                    (tasks st)))
      /\ inProgressTasks s
         = Z.of_nat (List.length (List.filter (status_matches "in_progress")
                                    (tasks st)))
      /\ completedTasks s
         = Z.of_nat (List.length (List.filter (status_matches "completed")
                                    (tasks st)))
      /\ todoTasks s + inProgressTasks s + completedTasks s <= totalTasks s
      /\ (todoTasks s + inProgressTasks s + completedTasks s = totalTasks s
          <-> Forall known_status (tasks st)).
Proof.
  intros st Hall. unfold updateStats, count_status.
  rewrite !(status_filter_run _ _ Hall). simpl.
  eexists. split; [reflexivity|]. simpl. repeat split.
  - destruct (count_disjoint (status_matches "todo")
                (status_matches "in_progress") (status_matches "completed")
                (tasks st)) as [Hle _].
    + intros x Hx. split; eapply status_matches_disjoint; eauto; discriminate.
    + intros x Hx. eapply status_matches_disjoint; eauto. discriminate.
    + lia.
  - intros H.
    destruct (count_disjoint (status_matches "todo")
                (status_matches "in_progress") (status_matches "completed")
                (tasks st)) as [_ Heq].
    + intros x Hx. split; eapply status_matches_disjoint; eauto; discriminate.
    + intros x Hx. eapply status_matches_disjoint; eauto. discriminate.
    + assert (H' : Forall (fun x => status_matches "todo" x = true
                              \/ status_matches "in_progress" x = true
                              \/ status_matches "completed" x = true)
                     (tasks st)) by (apply Heq; lia).
      eapply Forall_impl; [|exact H']. unfold known_status, status_matches.
      intros x. rewrite !strict_eq_VStr. auto.
  - intros H.
    destruct (count_disjoint (status_matches "todo")
                (status_matches "in_progress") (status_matches "completed")
                (tasks st)) as [_ Heq].
    + intros x Hx. split; eapply status_matches_disjoint; eauto; discriminate.
    + intros x Hx. eapply status_matches_disjoint; eauto. discriminate.
    + assert (H' : Forall (fun x => status_matches "todo" x = true
                              \/ status_matches "in_progress" x = true
                              \/ status_matches "completed" x = true)
                     (tasks st)).
      { eapply Forall_impl; [|exact H]. unfold known_status, status_matches.
        intros x. rewrite !strict_eq_VStr. auto. }
      apply Heq in H'. lia.
Qed.

End StatsProperties.

(** ** Failure messages *)

Lemma strict_eq_VNum : forall v n, strict_eq v (VNum n) = true <-> v = VNum n.
Proof.
  intros v n. destruct v; simpl; split; intro H; try discriminate.
  - apply Z.eqb_eq in H. now subst.
  - injection H as ->. apply Z.eqb_refl.
Qed.

Lemma opt_member_truthy :
  forall v p, truthy (opt_member v p) = true -> nullish v = false.
Proof. intros v p H. destruct v; auto; discriminate H. Qed.

Lemma opt_member_defined :
  forall v p, nullish v = false -> opt_member v p = member v p.
Proof. intros v p H. destruct v; auto; discriminate H. Qed.

Lemma errorMessage_eval :
  forall what error,
    nullish error = false ->
    errorMessage what error
    = Ok (if strict_eq (opt_member (member error "response") "status")
               (VNum 409)
          then "分类已存在，请选择其他分类名称"
          else if truthy (opt_member
                            (opt_member (member error "response") "data")
                            "message")
               then (what ++ ": "
                     ++ ToString (member (member (member error "response")
                                            "data") "message"))%string
               else (what ++ ": " ++ ToString (member error "message"))%string).
Proof.
  intros what error He. unfold errorMessage.
  rewrite !(get_member error _ He). simpl.
  destruct (strict_eq _ (VNum 409)); auto.
  destruct (truthy _) eqn:Ht; auto.
  assert (Hd := opt_member_truthy _ _ Ht).
  assert (Hr : nullish (member error "response") = false).
  { destruct (member error "response"); auto; discriminate Hd. }
  rewrite (get_member _ "data" Hr). simpl.
  rewrite (opt_member_defined _ "data" Hr) in Hd.
  now rewrite (get_member _ "message" Hd).
Qed.

Section FailureProperties.

Variable h : Host.

(** X13. When a save or a category creation fails, the handler logs the
    failure at level [error], which forwards exactly one entry to the
    server's log endpoint, hands [axios] no task or category request and
    turns the loading indicator off. Given an error object it then shows
    exactly one notification of type [error]: the duplicate-category text
    when the response status is the number 409, whatever message the
    server sent, and the operation's own text followed by a detail
    otherwise (the error's own message when there is no response). Given
    [null] or [undefined] it throws after the log entry instead, and shows
    no notification. *)
Theorem request_failed_notifies :
  forall (what : string) (error : value) (pg : Page),
    (exists entry,
       posted (session (fst (request_failed h what error pg)))
       = posted (session pg) ++ [entry]
       /\ level entry = "error" /\ message entry = what)
    /\ requests (fst (request_failed h what error pg)) = requests pg
    /\ loading (fst (request_failed h what error pg)) = false
    /\ tasks (session (fst (request_failed h what error pg)))
       = tasks (session pg)
    /\ (nullish error = true ->
        snd (request_failed h what error pg) = Throw TypeError
        /\ notifications (fst (request_failed h what error pg))
           = notifications pg)
    /\ (nullish error = false ->
        exists text,
          snd (request_failed h what error pg) = Ok tt
          /\ notifications (fst (request_failed h what error pg))
             = notifications pg
               ++ [mkNotification text "error" "fa-exclamation-circle"]
          /\ (opt_member (member error "response") "status" = VNum 409 ->
              text = "分类已存在，请选择其他分类名称")
          /\ (opt_member (member error "response") "status" <> VNum 409 ->
              exists detail, text = (what ++ ": " ++ detail)%string)
          /\ (nullish (member error "response") = true ->
              text = (what ++ ": "
                      ++ ToString (member error "message"))%string)).
Proof.
  intros what error pg.
  assert (Hfst : forall r,
             errorMessage what error = r ->
             session (fst (request_failed h what error pg))
             = FrontendLogger_log h "error" what error (session pg)
             /\ requests (fst (request_failed h what error pg)) = requests pg
             /\ loading (fst (request_failed h what error pg)) = false).
  { intros r Hr. unfold request_failed. rewrite Hr.
    destruct r; repeat split. }
  destruct (Hfst _ eq_refl) as [Hsess [Hreq Hload]].
  split; [|split; [exact Hreq|split; [exact Hload|split; [|split]]]].
  - rewrite Hsess, log_posted. cbn [String.eqb Ascii.eqb Bool.eqb].
    eexists. split; [reflexivity|]. split; reflexivity.
  - rewrite Hsess. apply (log_tasks h).
  - intros He. unfold request_failed.
    assert (Hm : errorMessage what error = Throw TypeError)
      by (destruct error; try discriminate; reflexivity).
    rewrite Hm. split; reflexivity.
  - intros He. unfold request_failed.
    rewrite (errorMessage_eval what error He).
    eexists. split; [reflexivity|]. split; [reflexivity|].
    destruct (strict_eq _ (VNum 409)) eqn:Hs.
    + split; [reflexivity|]. split.
      * intros Hne. apply strict_eq_VNum in Hs. contradiction.
      * intros Hn. exfalso. apply strict_eq_VNum in Hs.
        destruct (member error "response"); discriminate.
    + split.
      * intros H409. apply strict_eq_VNum in H409. congruence.
      * split.
        -- intros _. destruct (truthy _); eauto.
        -- intros Hn.
           destruct (member error "response"); try discriminate; reflexivity.
Qed.

End FailureProperties.

(** ** The edit form *)

Lemma join_texts :
  forall sep tags,
    Array_join sep (List.map VStr tags) = String.concat sep tags.
Proof.
  intros sep tags. induction tags as [|t r IH]; simpl; auto.
  destruct r as [|u r]; simpl in *; auto. now rewrite IH.
Qed.

Lemma split_no_sep :
  forall sep s, ~ In sep (list_ascii_of_string s) -> split sep s = [s].
Proof.
  intros sep s. induction s as [|c s IH]; simpl; intros H; auto.
  destruct (Ascii.eqb_spec c sep) as [->|Hne]; [exfalso; auto|].
  rewrite IH; auto.
Qed.

Lemma split_app_sep :
  forall sep s r,
    ~ In sep (list_ascii_of_string s) ->
    split sep (s ++ String sep r) = s :: split sep r.
Proof.
  intros sep s r. induction s as [|c s IH]; simpl; intros H.
  - now rewrite Ascii.eqb_refl.
  - destruct (Ascii.eqb_spec c sep) as [->|Hne]; [exfalso; auto|].
    rewrite IH; auto.
Qed.

Lemma split_joined :
  forall t r,
    ~ In ","%char (list_ascii_of_string t) ->
    Forall (fun x => ~ In ","%char (list_ascii_of_string x)) r ->
    split ","%char (String.concat ", " (t :: r))
    = t :: List.map (String " "%char) r.
Proof.
  intros t r Ht Hr. revert t Ht.
  induction Hr as [|u r Hu Hr IH]; intros t Ht.
  - simpl. now apply split_no_sep.
  - change (String.concat ", " (t :: u :: r))
      with (t ++ String ","%char
                   (String " "%char (String.concat ", " (u :: r))))%string.
    rewrite split_app_sep by exact Ht.
    change (split ","%char (String " "%char (String.concat ", " (u :: r))))
      with (match split ","%char (String.concat ", " (u :: r)) with
            | piece :: rest => String " "%char piece :: rest
            | [] => [String " "%char ""]
            end).
    rewrite (IH u Hu). reflexivity.
Qed.

Lemma trim_keeps_text :
  forall c s, UTCHost.is_space c = false -> UTCHost.trim_ascii (String c s) <> "".
Proof.
  intros c s Hc. unfold UTCHost.trim_ascii. simpl. rewrite Hc. simpl.
  rewrite Hc. simpl. discriminate.
Qed.

Section FormProperties.

Variable h : Host.

(** X14. The tags [saveTask] sends are the trimmed pieces of the tags box
    between commas, in order, without the empty ones: no tag it sends is
    empty. *)
Theorem parseTags_no_empty_tag :
  forall (text : string),
    Forall (fun tag => tag <> ""
                       /\ exists piece, In piece (split ","%char text)
                                        /\ tag = trim h piece)
           (parseTags h text).
Proof.
  intros text. unfold parseTags. destruct (truthy _); [|constructor].
  apply Forall_forall. intros tag Hin.
  apply filter_In in Hin as [Hin Hne]. apply in_map_iff in Hin as [p [<- Hp]].
  split; eauto. simpl in Hne. intros Heq. rewrite Heq in Hne. discriminate.
Qed.

(** X15. The tags box round-trips: the text [openTaskDetails] puts in it
    for a list of tags ([tags.join(', ')]) is read back by [saveTask] as
    that same list, when the host's [trim] leaves the empty text empty and
    every tag is clean for it: not empty, without a comma and without
    white space at either end. *)
Theorem tags_round_trip :
  forall (tags : list string),
    trim h "" = "" ->
    Forall (clean_tag h) tags ->
    parseTags h (Array_join ", " (List.map VStr tags)) = tags.
Proof.
  intros tags Hempty Hclean. rewrite join_texts. unfold parseTags.
  destruct tags as [|t r].
  - simpl String.concat. rewrite Hempty. reflexivity.
  - inversion Hclean as [|? ? [Hne [Hc [Ht [_ Hblank]]]] Hr]; subst.
    assert (Hguard : truthy (VStr (trim h (String.concat ", " (t :: r))))
                     = true).
    { assert (Hk : exists rest,
                 trim h (String.concat ", " (t :: r))
                 = trim h (t ++ rest)%string \/
                 trim h (String.concat ", " (t :: r)) = t).
      { destruct r as [|u r'].
        - exists "". right. simpl. exact Ht.
        - eexists. left. reflexivity. }
      destruct Hk as [rest [Hk|Hk]]; rewrite Hk; simpl.
      - destruct (String.eqb_spec (trim h (t ++ rest)) "") as [E|E];
          [exfalso; exact (Hblank rest E)|reflexivity].
      - destruct (String.eqb_spec t "") as [E|E];
          [contradiction|reflexivity]. }
    rewrite Hguard. rewrite split_joined; auto.
    + simpl List.map. rewrite Ht. simpl List.filter.
      destruct (String.eqb_spec t ""); [contradiction|]. simpl.
      f_equal. clear Hguard Hclean.
      induction Hr as [|u r [Hune [_ [_ [Hus _]]]] Hr IH]; simpl; auto.
      rewrite Hus. destruct (String.eqb_spec u ""); [contradiction|].
      simpl. now rewrite IH.
    + eapply Forall_impl; [|exact Hr]. now intros x [_ [Hx _]].
Qed.

Lemma taskData_well_formed : forall f, well_formed (taskData h f).
Proof.
  intros f. split; [reflexivity|]. split; [eexists; reflexivity|].
  split.
  - change (member (taskData h f) "description")
      with (text_or_null (trim h (taskDescription f))).
    unfold text_or_null. destruct (_ =? "")%string; intros H;
      [discriminate H|eexists; reflexivity].
  - intros _. eexists. split; [reflexivity|].
    apply Forall_forall. intros x Hx. apply in_map_iff in Hx as [s [<- _]].
    eexists. reflexivity.
Qed.

Lemma Array_find_defined :
  forall id l,
    Forall defined l ->
    exists v, Array_find (has_id id) l = Ok v
              /\ (truthy v = true -> nullish v = false).
Proof.
  intros id l Hl. induction Hl as [|x l Hx _ [v [IH Hv]]]; simpl.
  - exists VUndefined. split; [reflexivity|discriminate].
  - unfold has_id at 1. rewrite (get_member x _ Hx). simpl.
    destruct (strict_eq _ _); [|eauto].
    exists x. split; [reflexivity|]. intros _. exact Hx.
Qed.

(** X16. [saveTask] sends nothing and shows one warning when the title is
    blank after trimming. Otherwise, when no category in the list is
    [null] or [undefined], it turns the loading indicator on and hands
    [axios] exactly one request (PUT when a task is open, POST when
    not), whose body is a well-formed task for the engine, with the
    trimmed, non-empty title and [null], never the empty text, for an
    unset due date, category or description. *)
Theorem saveTask_sends_valid_task :
  forall (f : Form) (pg : Page),
    Forall defined (categories pg) ->
    (trim h (taskTitle f) = "" ->
     exists pg',
       saveTask h f pg = Ok pg'
       /\ requests pg' = requests pg
       /\ notifications pg'
          = notifications pg
            ++ [mkNotification "请输入任务标题" "warning"
                  "fa-exclamation-triangle"])
    /\ (trim h (taskTitle f) <> "" ->
        exists pg' req,
          saveTask h f pg = Ok pg'
          /\ requests pg' = requests pg ++ [req]
          /\ notifications pg' = notifications pg
          /\ loading pg' = true
          /\ req_method req
             = (if truthy (currentTaskId pg) then "PUT" else "POST")
          /\ req_body req = taskData h f
          /\ well_formed (req_body req)
          /\ member (req_body req) "title" = VStr (trim h (taskTitle f))
          /\ member (req_body req) "due_date" <> VStr ""
          /\ member (req_body req) "category_id" <> VStr ""
          /\ member (req_body req) "description" <> VStr "").
Proof.
  intros f pg Hcats. unfold saveTask. split.
  - intros ->. simpl. eexists. repeat split.
  - intros Hne.
    assert (Ht : truthy (VStr (trim h (taskTitle f))) = true).
    { simpl. now destruct (String.eqb_spec (trim h (taskTitle f)) ""). }
    rewrite Ht. cbn [negb].
    assert (Hsel : exists v,
               (if truthy (text_or_null (taskCategory f))
                then Array_find (has_id (text_or_null (taskCategory f)))
                       (categories pg)
                else Ok VNull) = Ok v
               /\ (truthy v = true -> nullish v = false)).
    { destruct (truthy (text_or_null (taskCategory f))).
      - now apply Array_find_defined.
      - exists VNull. split; [reflexivity|discriminate]. }
    destruct Hsel as [sel [-> Hsel]]. cbn [bind].
    assert (Hname : exists n,
               (if truthy sel then get sel "name" else Ok (VStr "无分类"))
               = Ok n).
    { destruct (truthy sel) eqn:Hs; eauto.
      rewrite (get_member sel "name" (Hsel eq_refl)). eauto. }
    destruct Hname as [n ->]. cbn [bind].
    assert (Hnull : forall s, text_or_null s <> VStr "").
    { intros s. unfold text_or_null.
      destruct (String.eqb_spec s ""); congruence. }
    destruct (truthy (currentTaskId _)) eqn:Hid;
      (eexists; eexists; split; [reflexivity|]);
      cbn [requests send notifications loading req_method req_body];
      repeat match goal with
             | |- _ /\ _ => split
             end;
      try reflexivity;
      try apply taskData_well_formed;
      try apply Hnull;
      rewrite ?(proj1 (proj2 (proj2 (page_log_frame h _ _ _ _))));
      rewrite ?(proj1 (proj2 (proj2 (proj2 (page_log_frame h _ _ _ _)))));
      cbn [requests notifications showLoading set_loading];
      rewrite ?(proj1 (proj2 (proj2 (page_log_frame h _ _ _ _))));
      rewrite ?(proj1 (proj2 (proj2 (proj2 (page_log_frame h _ _ _ _)))));
      try reflexivity.
    all: cbn [currentTaskId page_log with_session showLoading set_loading]
      in Hid; now rewrite Hid.
Qed.

End FormProperties.

(** ** The page on concrete inputs *)

Lemma status_filter_exact_witness :
  statusFilter UTCHost.host
    (setFilter "in_progress" (st_example "all" "priority" "" board)) board
  = Ok [nth 1 board VNull].
Proof.
  destruct (status_filter_exact UTCHost.host "in_progress"
              (st_example "all" "priority" "" board) board_defined)
    as [out [Hrun [Hout _]]].
  - right. left. reflexivity.
  - change (tasks (st_example "all" "priority" "" board)) with board in Hrun.
    rewrite Hrun, Hout. reflexivity.
Defined.

Lemma unknown_filter_keeps_all_witness :
  statusFilter UTCHost.host (st_example "starred" "priority" "" board) board
  = Ok board.
Proof.
  apply (unknown_filter_keeps_all UTCHost.host
           (st_example "starred" "priority" "" board) board);
    discriminate.
Defined.

Lemma category_filter_exact_witness :
  categoryFilter
    (setCategoryFilter (VStr "3") (st_example "all" "priority" "" []))
    category_examples
  = Ok [VObj [("title", VStr "b"); ("category_id", VStr "3")]].
Proof.
  destruct (category_filter_exact
              (setCategoryFilter (VStr "3") (st_example "all" "priority" "" []))
              category_examples) as [_ Hother].
  - repeat constructor.
  - destruct Hother as [out [Hrun [Hout _]]]; [discriminate|].
    rewrite Hrun, Hout. reflexivity.
Defined.

Lemma due_date_desc_undated_first_witness :
  sortStep UTCHost.host "due_date_desc" due_examples
  = Ok [task_due "undated" VNull;
        task_due "no date field" VUndefined;
        task_due "later" (VStr "2024-02-01");
        task_due "sooner" (VStr "2024-01-10")].
Proof.
  destruct (due_date_desc_undated_first UTCHost.host due_examples)
    as [out [Hrun _]].
  - repeat constructor; try (intros H; discriminate H);
      try (intros _; eexists; vm_compute; reflexivity).
  - rewrite Hrun. vm_compute in Hrun. now injection Hrun as <-.
Defined.

Lemma updated_examples_valid :
  Forall (valid_updated_at UTCHost.host) updated_examples.
Proof.
  unfold updated_examples.
  repeat (apply Forall_cons;
          [split; [reflexivity|eexists; vm_compute; reflexivity]|]).
  apply Forall_nil.
Qed.

Lemma updated_at_sorts_ordered_witness :
  sortStep UTCHost.host "updated_at_desc" updated_examples
  = Ok [task_updated "newest" (VStr "2024-01-20");
        task_updated "second" (VStr "2024-01-12");
        task_updated "oldest" (VNum 1704067200000)]
  /\ sortStep UTCHost.host "updated_at_asc" updated_examples
     = Ok [task_updated "oldest" (VNum 1704067200000);
           task_updated "second" (VStr "2024-01-12");
           task_updated "newest" (VStr "2024-01-20")].
Proof.
  destruct (updated_at_sorts_ordered UTCHost.host updated_examples
              updated_examples_valid)
    as [[d [Hd _]] [a [Ha _]]].
  split.
  - rewrite Hd. vm_compute in Hd. now injection Hd as <-.
  - rewrite Ha. vm_compute in Ha. now injection Ha as <-.
Defined.

Lemma engine_output_is_selection_witness :
  incl [nth 1 board VNull] board
  /\ (List.length [nth 1 board VNull] <= List.length board)%nat.
Proof.
  destruct (engine_output_is_selection UTCHost.host
              (st_example "due_soon" "due_date_asc" "report" board)
              [nth 1 board VNull]) as [_ [Hincl Hlen]].
  - vm_compute. reflexivity.
  - split; [exact Hincl|exact Hlen].
Defined.

Lemma card_class_and_filters_witness :
  dueDateClass UTCHost.host (st_example "all" "priority" "" board)
    (nth 1 board VNull) = Ok "due-soon"
  /\ dueDateClass UTCHost.host (st_example "all" "priority" "" board)
       (task_due "this afternoon" (VNum 1705330800000)) = Ok ""
  /\ is_due_soon UTCHost.host
       (today UTCHost.host (st_example "all" "priority" "" board))
       (tomorrow UTCHost.host (st_example "all" "priority" "" board))
       (task_due "this afternoon" (VNum 1705330800000)) = Ok true.
Proof.
  destruct (card_class_and_filters UTCHost.host
              (st_example "all" "priority" "" board) (nth 1 board VNull)
              eq_refl) as [c [Hc [_ [Hsoon _]]]].
  destruct (card_class_and_filters UTCHost.host
              (st_example "all" "priority" "" board)
              (task_due "this afternoon" (VNum 1705330800000)) eq_refl)
    as [c' [Hc' [_ [_ [_ Hlater]]]]].
  destruct (Hlater 1705330800000) as [Hkept Hnone].
  - vm_compute. reflexivity.
  - vm_compute. split; reflexivity.
  - intros H. discriminate H.
  - split; [|split; [|exact Hkept]].
    + rewrite Hc. f_equal. apply Hsoon. split.
      * vm_compute. reflexivity.
      * intros H. discriminate H.
    + rewrite Hc'. now rewrite Hnone.
Defined.

Lemma updateStats_counts_witness :
  updateStats (st_example "all" "priority" "" board) = Ok (mkStats 3 1 1 1).
Proof.
  destruct (updateStats_counts (st_example "all" "priority" "" board)
              board_defined) as [s [Hrun _]].
  rewrite Hrun. vm_compute in Hrun. now injection Hrun as <-.
Defined.

Lemma request_failed_notifies_witness :
  let pg := emptyPage (initialState "priority" clock_example) [] VNull in
  snd (request_failed UTCHost.host "创建分类失败" conflict_error pg) = Ok tt
  /\ notifications (fst (request_failed UTCHost.host "创建分类失败"
                           conflict_error pg))
     = [mkNotification "分类已存在，请选择其他分类名称" "error"
          "fa-exclamation-circle"]
  /\ List.length (posted (session (fst (request_failed UTCHost.host
                                          "创建分类失败" conflict_error pg))))
     = 1%nat.
Proof.
  intros pg.
  destruct (request_failed_notifies UTCHost.host "创建分类失败" conflict_error
              pg) as [[entry [Hpost _]] [_ [_ [_ [_ Hobj]]]]].
  destruct (Hobj eq_refl) as [text [Hrun [Hnote [H409 _]]]].
  split; [exact Hrun|]. split.
  - rewrite Hnote, (H409 eq_refl). reflexivity.
  - rewrite Hpost. reflexivity.
Defined.

Lemma clean_tags_example :
  Forall (clean_tag UTCHost.host) ["work"; "Q3 report"; "home"].
Proof.
  repeat (apply Forall_cons;
          [split; [discriminate|];
           split;
           [simpl; intros H;
            repeat (destruct H as [H|H]; [discriminate H|]); exact H|];
           split; [reflexivity|]; split; [reflexivity|];
           intros rest; apply trim_keeps_text; reflexivity|]).
  apply Forall_nil.
Qed.

Lemma tags_round_trip_witness :
  Array_join ", " (List.map VStr ["work"; "Q3 report"; "home"])
  = "work, Q3 report, home"
  /\ parseTags UTCHost.host "work, Q3 report, home"
     = ["work"; "Q3 report"; "home"].
Proof.
  split; [reflexivity|].
  change "work, Q3 report, home"
    with (Array_join ", " (List.map VStr ["work"; "Q3 report"; "home"])).
  apply (tags_round_trip UTCHost.host).
  - reflexivity.
  - exact clean_tags_example.
Defined.

Lemma saveTask_sends_valid_task_witness :
  let pg := emptyPage (initialState "priority" clock_example) [] VNull in
  exists pg' req,
    saveTask UTCHost.host form_example pg = Ok pg'
    /\ requests pg' = [req]
    /\ req_method req = "POST"
    /\ member (req_body req) "title" = VStr "Write report"
    /\ member (req_body req) "tags"
       = VArr [VStr "work"; VStr "urgent"; VStr "Q3"]
    /\ member (req_body req) "description" = VNull
    /\ member (req_body req) "due_date" = VNull.
Proof.
  intros pg.
  destruct (saveTask_sends_valid_task UTCHost.host form_example pg)
    as [_ Hsend]; [constructor|].
  destruct Hsend as [pg' [req [Hrun [Hreq [_ [_ [Hm [Hbody _]]]]]]]].
  - vm_compute. discriminate.
  - exists pg', req. split; [exact Hrun|]. split; [exact Hreq|].
    split; [exact Hm|]. rewrite Hbody. repeat split.
Defined.

Lemma unranked_priority_display_witness :
  getPriorityText (VStr "urgent") = "中"
  /\ getPriorityIcon (VStr "urgent") = "fa-flag text-secondary".
Proof.
  destruct (unranked_priority_display (VStr "urgent") eq_refl)
    as [Ht [Hi _]].
  split; [exact Ht|exact Hi].
Defined.

Lemma priority_sort_recognized_witness :
  exists out,
    sortStep UTCHost.host "priority"
      [task_with "low"; task_with "high"; task_with "medium"] = Ok out
    /\ StronglySorted rank_le out.
Proof.
  destruct (priority_sort_recognized UTCHost.host
              [task_with "low"; task_with "high"; task_with "medium"])
    as [out [Hrun [_ [Hs _]]]].
  - repeat (apply Forall_cons; [split; [reflexivity|discriminate]|]).
    apply Forall_nil.
  - exists out. split; assumption.
Defined.
